(** * gw2formats: the PackFile container reader (gw2formats/pf/PackFile.h)

    A shallow embedding of [gw2f::pf::PackFile<TFileType>]: the packed
    little-endian [FileHeader] and [ChunkHeader] layouts, the
    reference-counted [DataVector] behind [m_data], the validating [assign],
    the linear chunk scan of [chunk(p_identifier, po_size)] and the typed
    [chunk<TId>()] that hands the located bytes to [ChunkFactory]. *)

From Stdlib Require Import ZArith List Lia Strings.Byte.
From stdpp Require Import strings.
From stdpp Require Import base option numbers list gmap gmultiset.

Local Open Scope Z_scope.

(** ** Outcomes

    The C++ code has two ways of not producing a value that the embedding
    keeps apart from its ordinary results: a loop that is still running when
    the fuel of the model is used up, and a memory access outside the object
    it is made in (undefined behaviour in the source). *)

Inductive fault : Type :=
| OutOfFuel
| BadRead (off : Z)
| NullDeref.  (* [m_data->] on a shared pointer that holds no live vector *)

Inductive res (A : Type) : Type :=
| Ok (a : A)
| Fault (f : fault).

Arguments Ok {A} a.
Arguments Fault {A} f.

#[global] Instance res_ret : MRet res := fun A a => Ok a.
#[global] Instance res_bind : MBind res := fun A B k m =>
  match m with
  | Ok a => k a
  | Fault f => Fault f
  end.

(** ** Machine integers *)

Definition to_uint32 (x : Z) : Z := x mod 2 ^ 32.

Definition byte_val (b : byte) : Z := Z.of_N (Byte.to_N b).

(** [sizeof(FileHeader)] and [sizeof(ChunkHeader)] under [#pragma pack(1)],
    and the two constants of the span computation. *)
Definition sizeof_FileHeader : Z := 2 + 2 + 2 + 2 + 4.
Definition sizeof_ChunkHeader : Z := 4 + 4 + 2 + 2 + 4.
Definition offsetof_nextChunkOffset : Z := 4.
Definition sizeof_nextChunkOffset : Z := 4.

(** Field offsets inside the two packed structures. *)
Definition off_FileHeader_magic0 : Z := 0.
Definition off_FileHeader_magic1 : Z := 1.
Definition off_FileHeader_contentType : Z := 8.
Definition off_ChunkHeader_magic : Z := 0.
Definition off_ChunkHeader_headerSize : Z := 10.

(** ** Reading a byte buffer

    A buffer is the content of a [std::vector<byte>] (or of the caller's
    memory at [p_data]); an access outside it is a [BadRead]. Multi-byte
    fields are little-endian, as [reinterpret_cast] reads them on the
    platforms the library targets. *)

Definition read_u8 (d : list byte) (off : Z) : res Z :=
  if decide (0 <= off) then
    match d !! Z.to_nat off with
    | Some b => Ok (byte_val b)
    | None => Fault (BadRead off)
    end
  else Fault (BadRead off).

Definition read_u16 (d : list byte) (off : Z) : res Z :=
  b0 ← read_u8 d off;
  b1 ← read_u8 d (off + 1);
  mret (b0 + 256 * b1).

Definition read_u32 (d : list byte) (off : Z) : res Z :=
  lo ← read_u16 d off;
  hi ← read_u16 d (off + 2);
  mret (lo + 65536 * hi).

(** [std::memcpy(dst, p_data, p_size)]: the first [n] bytes of the source. *)
Definition read_bytes (d : list byte) (n : Z) : res (list byte) :=
  if decide (0 <= n <= Z.of_nat (length d)) then Ok (take (Z.to_nat n) d)
  else Fault (BadRead n).

(** ** The chunk scan *)

Section Scan.

(** Width of [size_t]: [offsetof] and [sizeof] have that type, so the span
    [chunkSize] is computed in it. *)
Variable size_bits : Z.

Definition to_size_t (x : Z) : Z := x mod 2 ^ size_bits.

(** The [while] loop of [chunk(p_identifier, po_size)], on offsets from
    [m_data->data()]: [pointer] is the offset of the current chunk header,
    [end] is [m_data->size()]. The result is the offset returned (or
    [None] for [nullptr]) and the final value of [po_size].

    Pointers are compared and advanced as unbounded offsets: a pointer that
    [pointer += chunkSize] has moved past the end of the vector compares
    greater than [end], which is what happens on a 64-bit platform, where
    an address plus a span below 2^32 + 8 does not wrap. With 32-bit
    pointers the address can wrap around, so what is said below about a
    pointer that has left the vector is said for [32 < size_bits] only; a
    run that stays inside the vector is the same at every width. [remaining] is a
    [ptrdiff_t] that is positive where it is compared with
    [sizeof(ChunkHeader)], so its conversion to [size_t] changes nothing. *)
Fixpoint scan (fuel : nat) (d : list byte) (p_identifier : Z)
    (pointer : Z) (po_size : Z) : res (option Z * Z) :=
  match fuel with
  | O => Fault OutOfFuel
  | S fuel' =>
      let end_ := Z.of_nat (length d) in
      if pointer <? end_ then
        let remaining := end_ - pointer in
        if remaining <? sizeof_ChunkHeader then Ok (None, po_size)
        else
          nextChunkOffset ← read_u32 d (pointer + offsetof_nextChunkOffset);
          let chunkSize :=
            to_size_t (to_size_t (nextChunkOffset + offsetof_nextChunkOffset)
                       + sizeof_nextChunkOffset) in
          magic ← read_u32 d (pointer + off_ChunkHeader_magic);
          if magic =? p_identifier then
            headerSize ← read_u16 d (pointer + off_ChunkHeader_headerSize);
            Ok (Some (pointer + sizeof_ChunkHeader),
                to_uint32 (to_size_t (chunkSize - headerSize)))
          else scan fuel' d p_identifier (pointer + chunkSize) po_size
      else Ok (None, po_size)
  end.

End Scan.

(** ** The shared store

    [m_data] is a [std::shared_ptr<DataVector>]: several PackFile objects may
    hold the same vector. The store maps the identity of each live vector to
    its use count and its content; a vector is destroyed when its last owner
    lets go of it. *)

Record block : Type := Block { refs : nat; bytes : list byte }.

Abbreviation handle := positive (only parsing).
Abbreviation heap := (gmap positive block) (only parsing).

(** A [const byte*] into an owned vector: the vector and an offset in it. *)
Definition ptr : Type := positive * Z.

(** [new DataVector(...)] wrapped in a fresh [shared_ptr]. *)
Definition alloc (σ : heap) (d : list byte) : heap * positive :=
  let h := fresh (dom σ) in (<[h := Block 1 d]> σ, h).

(** Copying a [shared_ptr] that owns [h]. *)
Definition acquire (h : positive) (σ : heap) : heap :=
  alter (fun b => Block (S (refs b)) (bytes b)) h σ.

(** Dropping one owner of [h]. *)
Definition release (h : positive) (σ : heap) : heap :=
  match σ !! h with
  | Some b =>
      if (refs b <=? 1)%nat then delete h σ
      else <[h := Block (Nat.pred (refs b)) (bytes b)]> σ
  | None => σ
  end.

Definition release_opt (o : option positive) (σ : heap) : heap :=
  match o with
  | Some h => release h σ
  | None => σ
  end.

Definition share (o : option positive) (σ : heap) : heap :=
  match o with
  | Some h => acquire h σ
  | None => σ
  end.

(** [m_data->data()] as a pointer to the first byte of the vector. *)
Definition data_ptr (o : option positive) : option (positive * Z) :=
  match o with
  | Some h => Some (h, 0)
  | None => None
  end.

(** [m_data->size()] and friends dereference the shared pointer. *)
Definition deref (σ : heap) (o : option positive) : res (list byte) :=
  match o with
  | Some h =>
      match σ !! h with
      | Some b => Ok (bytes b)
      | None => Fault NullDeref
      end
  | None => Fault NullDeref
  end.

(** The bytes a (pointer, length) view denotes, when all of them lie inside
    the vector the pointer points into. *)
Definition view_bytes (σ : heap) (p : ptr) (size : Z) : option (list byte) :=
  match σ !! p.1 with
  | Some b =>
      if decide (0 <= p.2 /\ 0 <= size /\ p.2 + size <= Z.of_nat (length (bytes b)))
      then Some (take (Z.to_nat size) (drop (Z.to_nat p.2) (bytes b)))
      else None
  | None => None
  end.

(** ** The container *)

Record PackFile : Type := MkPackFile {
  m_data : option positive;
  m_header : option ptr
}.

Section Container.

Variable size_bits : Z.

(** The template parameter: the fourcc of the expected format. *)
Variable TFileType : Z.

(** [PackFile()] *)
Definition PackFile_default (σ : heap) : heap * PackFile :=
  let '(σ', h) := alloc σ [] in
  (σ', MkPackFile (Some h) None).

(** [PackFile(const PackFile& p_other)] *)
Definition PackFile_copy (σ : heap) (p_other : PackFile) : res (heap * PackFile) :=
  let σ' := share (m_data p_other) σ in
  d ← deref σ' (m_data p_other);
  mret (σ', MkPackFile (m_data p_other)
              (if (length d =? 0)%nat then None else data_ptr (m_data p_other))).

(** [operator=(const PackFile& p_other)]: the shared pointer assignment
    takes its share of the new vector before it gives up the old one. *)
Definition PackFile_copy_assign (σ : heap) (this p_other : PackFile)
    : res (heap * PackFile) :=
  let σ' := release_opt (m_data this) (share (m_data p_other) σ) in
  d ← deref σ' (m_data p_other);
  mret (σ', MkPackFile (m_data p_other)
              (if (length d =? 0)%nat then None else data_ptr (m_data p_other))).

(** [assign(p_data, p_size)]: [p_data] is [None] for a null pointer and
    otherwise the caller's memory from that address on, which is taken not
    to lie inside the vector that this call lets go of. The new vector is
    allocated before [reset] gives up the old one. *)
Definition assign (σ : heap) (this : PackFile) (p_data : option (list byte))
    (p_size : Z) : res (heap * PackFile * bool) :=
  match p_data with
  | None => Ok (σ, this, false)
  | Some mem =>
      if p_size =? 0 then Ok (σ, this, false)
      else if p_size <? sizeof_FileHeader then Ok (σ, this, false)
      else
        magic0 ← read_u8 mem off_FileHeader_magic0;
        if negb (magic0 =? byte_val "P") then Ok (σ, this, false)
        else
          magic1 ← read_u8 mem off_FileHeader_magic1;
          if negb (magic1 =? byte_val "F") then Ok (σ, this, false)
          else
            contentType ← read_u32 mem off_FileHeader_contentType;
            if negb (contentType =? TFileType) then Ok (σ, this, false)
            else
              d ← read_bytes mem p_size;
              let '(σ1, h) := alloc σ d in
              let σ2 := release_opt (m_data this) σ1 in
              Ok (σ2, MkPackFile (Some h) (Some (h, 0)), true)
  end.

(** [load(p_filename)] over a file system that maps the names of the files
    that can be opened to their content. *)
Definition load (fs : string -> option (list byte)) (σ : heap) (this : PackFile)
    (p_filename : string) : res (heap * PackFile * bool) :=
  match fs p_filename with
  | None => Ok (σ, this, false)
  | Some content =>
      let size := to_uint32 (Z.of_nat (length content)) in
      let data := take (Z.to_nat size) content in
      assign σ this (Some data) (to_uint32 (Z.of_nat (length data)))
  end.

(** [PackFile(const byte* p_data, uint32 p_size)]: [m_data] starts out as a
    null shared pointer. *)
Definition PackFile_from_data (σ : heap) (p_data : option (list byte))
    (p_size : Z) : res (heap * PackFile) :=
  r ← assign σ (MkPackFile None None) p_data p_size;
  mret (r.1.1, r.1.2).

(** [PackFile(const char* p_filename)] *)
Definition PackFile_from_file (fs : string -> option (list byte)) (σ : heap)
    (p_filename : string) : res (heap * PackFile) :=
  r ← load fs σ (MkPackFile None None) p_filename;
  mret (r.1.1, r.1.2).

(** [~PackFile()] *)
Definition PackFile_destroy (σ : heap) (this : PackFile) : heap :=
  release_opt (m_data this) σ.

(** [type()] *)
Definition type_ (this : PackFile) : Z :=
  if m_header this is Some _ then TFileType else 0.

(** [chunk(p_identifier, po_size)]: the returned pointer and the value
    left in [po_size]. The scan starts at [m_data->data() +
    sizeof(FileHeader)] and ends at [m_data->data() + m_data->size()]. *)
Definition chunk_fuel (fuel : nat) (σ : heap) (this : PackFile)
    (p_identifier : Z) : res (option ptr * Z) :=
  let po_size := 0 in
  match m_header this with
  | None => Ok (None, po_size)
  | Some _ =>
      match m_data this with
      | None => Fault NullDeref
      | Some h =>
          match σ !! h with
          | None => Fault NullDeref
          | Some b =>
              match scan size_bits fuel (bytes b) p_identifier
                      sizeof_FileHeader po_size with
              | Ok (Some off, size) => Ok (Some (h, off), size)
              | Ok (None, size) => Ok (None, size)
              | Fault f => Fault f
              end
          end
      end
  end.

(** The loop runs at most once per byte of the vector on the platforms
    where it ends at all, so this much fuel is never used up there. *)
Definition chunk (σ : heap) (this : PackFile) (p_identifier : Z)
    : res (option ptr * Z) :=
  match deref σ (m_data this) with
  | Ok d => chunk_fuel (S (length d)) σ this p_identifier
  | Fault _ => chunk_fuel 1 σ this p_identifier
  end.

End Container.

(** ** The typed lookup *)

Section Dispatch.

Variable size_bits : Z.
Variable TFileType : Z.

(** [ChunkFactory<TFileType,TId>::Type] and its constructor from a data
    pointer and a size, both declared in gw2formats/pf/ChunkFactory.h. The
    constructor may read the store through the pointer it is given. *)
Variable ChunkFactory_Type : Z -> Z -> Type.
Variable construct :
  forall (fileType id : Z), heap -> option ptr -> Z -> ChunkFactory_Type fileType id.

(** One invocation of a [ChunkFactory] constructor. *)
Record call : Type := Call {
  call_fileType : Z;
  call_id : Z;
  call_data : option ptr;
  call_size : Z
}.

(** [chunk<TId>()]: the content of the returned [shared_ptr] ([None] for
    one that holds [nullptr]) and the constructor invocations made. *)
Definition chunk_typed_fuel (fuel : nat) (σ : heap) (this : PackFile) (TId : Z)
    : res (option (ChunkFactory_Type TFileType TId) * list call) :=
  match chunk_fuel size_bits fuel σ this TId with
  | Ok (data, size) =>
      Ok (Some (construct TFileType TId σ data size),
          [Call TFileType TId data size])
  | Fault f => Fault f
  end.

Definition chunk_typed (σ : heap) (this : PackFile) (TId : Z)
    : res (option (ChunkFactory_Type TFileType TId) * list call) :=
  match chunk size_bits σ this TId with
  | Ok (data, size) =>
      Ok (Some (construct TFileType TId σ data size),
          [Call TFileType TId data size])
  | Fault f => Fault f
  end.

End Dispatch.

Arguments Call _ _ _ _ : clear implicits.

(** ** Writing the packed layouts

    The source only reads PackFiles. To state what the reader finds in a
    file of a given shape, the two headers are written out here field by
    field, little-endian and without padding. *)

Definition byte_of (x : Z) : byte :=
  default "000"%byte (Byte.of_N (Z.to_N (x mod 256))).

Definition encode_u16 (x : Z) : list byte :=
  [byte_of x; byte_of (x / 256)].

Definition encode_u32 (x : Z) : list byte :=
  encode_u16 x ++ encode_u16 (x / 65536).

Definition encode_FileHeader (descriptorType zero headerSize contentType : Z)
    : list byte :=
  ["P"%byte; "F"%byte] ++ encode_u16 descriptorType ++ encode_u16 zero
    ++ encode_u16 headerSize ++ encode_u32 contentType.

Definition encode_ChunkHeader (magic nextChunkOffset version headerSize
    descriptorOffset : Z) : list byte :=
  encode_u32 magic ++ encode_u32 nextChunkOffset ++ encode_u16 version
    ++ encode_u16 headerSize ++ encode_u32 descriptorOffset.

(** ** Fields of a header that lies inside the buffer

    Total versions of the reads, used to name what the scan sees at an
    offset where a whole header fits. *)

Definition u8_at (d : list byte) (off : Z) : Z :=
  byte_val (default "000"%byte (d !! Z.to_nat off)).

Definition u16_at (d : list byte) (off : Z) : Z :=
  u8_at d off + 256 * u8_at d (off + 1).

Definition u32_at (d : list byte) (off : Z) : Z :=
  u16_at d off + 65536 * u16_at d (off + 2).

Definition magic_at (d : list byte) (p : Z) : Z :=
  u32_at d (p + off_ChunkHeader_magic).

Definition nextChunkOffset_at (d : list byte) (p : Z) : Z :=
  u32_at d (p + offsetof_nextChunkOffset).

Definition headerSize_at (d : list byte) (p : Z) : Z :=
  u16_at d (p + off_ChunkHeader_headerSize).

(** The span [chunkSize] the loop computes for the header at [p]. *)
Definition chunkSize_at (size_bits : Z) (d : list byte) (p : Z) : Z :=
  to_size_t size_bits
    (to_size_t size_bits (nextChunkOffset_at d p + offsetof_nextChunkOffset)
     + sizeof_nextChunkOffset).

(** The value the loop stores in [po_size] for a matching header at [p]. *)
Definition payloadSize_at (size_bits : Z) (d : list byte) (p : Z) : Z :=
  to_uint32 (to_size_t size_bits (chunkSize_at size_bits d p - headerSize_at d p)).

(** The chunk headers in storage order: the offsets, from [p] on, at which a
    whole [ChunkHeader] fits, each one [chunkSize] bytes after the one
    before. *)
Inductive chunk_table (size_bits : Z) (d : list byte) : Z -> list Z -> Prop :=
| table_end p :
    ~ (p + sizeof_ChunkHeader <= Z.of_nat (length d)) ->
    chunk_table size_bits d p []
| table_chunk p l :
    0 <= p ->
    p + sizeof_ChunkHeader <= Z.of_nat (length d) ->
    chunk_table size_bits d (p + chunkSize_at size_bits d p) l ->
    chunk_table size_bits d p (p :: l).

(** ** The container invariant

    A container whose vector is not empty starts with a [FileHeader] that
    has the magic "PF" and the content type of the instantiation, and its
    header view points at the first byte of that vector; a container whose
    vector is empty (or whose [m_data] is null) has no header view. *)

Definition valid_header (TFileType : Z) (d : list byte) : Prop :=
  sizeof_FileHeader <= Z.of_nat (length d)
  /\ d !! 0%nat = Some "P"%byte
  /\ d !! 1%nat = Some "F"%byte
  /\ u32_at d off_FileHeader_contentType = TFileType.

Definition packfile_inv (TFileType : Z) (σ : heap) (pf : PackFile) : Prop :=
  match m_data pf with
  | None => m_header pf = None
  | Some h =>
      exists b, σ !! h = Some b /\ (1 <= refs b)%nat /\
        match bytes b with
        | [] => m_header pf = None
        | _ :: _ => m_header pf = Some (h, 0) /\ valid_header TFileType (bytes b)
        end
  end.

(** ** Use counts

    The vector a container holds a share of, as a multiset, so that the
    shares of several containers can be added up. *)
Definition owner (pf : PackFile) : gmultiset positive :=
  match m_data pf with
  | Some h => {[+ h +]}
  | None => ∅
  end.

(** The store is consistent with the shares [owners] of the containers
    that are alive: a vector is in the store exactly when somebody holds a
    share of it, and its use count is the number of shares. *)
Definition store_ok (σ : gmap positive block) (owners : gmultiset positive) : Prop :=
  forall h,
    match σ !! h with
    | Some b => refs b = multiplicity h owners /\ (1 <= refs b)%nat
    | None => multiplicity h owners = 0%nat
    end.

(** A container that holds data: what [assign] leaves behind on success. *)
Definition loaded (TFileType : Z) (σ : heap) (pf : PackFile) (h : positive)
    (d : list byte) : Prop :=
  m_data pf = Some h /\ m_header pf = Some (h, 0)
  /\ (exists n, σ !! h = Some (Block (S n) d))
  /\ valid_header TFileType d.

(** ** Sample files

    A chunk as the format writes it: a sixteen-byte header whose
    [nextChunkOffset] counts the rest of the header after that field and
    the payload, then the payload. *)

Definition encode_chunk (magic version : Z) (payload : list byte) : list byte :=
  encode_ChunkHeader magic (Z.of_nat (length payload) + 8) version
    sizeof_ChunkHeader 0 ++ payload.

Definition encode_file (contentType : Z) (chunks : list (list byte)) : list byte :=
  encode_FileHeader 0 0 sizeof_FileHeader contentType ++ concat chunks.

(** The file of the specification's scenario: one chunk header with
    [nextChunkOffset = 8], [version = 1], [headerSize = 12] and
    [descriptorOffset = 0], followed by the payload. *)
Definition scenario_file (X Y : Z) (payload : list byte) : list byte :=
  encode_FileHeader 0 0 16 X ++ encode_ChunkHeader Y 8 1 12 0 ++ payload.

Definition sample_payload : list byte :=
  ["a"; "b"; "c"; "d"; "e"; "f"; "g"; "h"]%byte.

Definition other_payload : list byte :=
  ["s"; "e"; "c"; "o"; "n"; "d"]%byte.

(** Two fourccs, read as little-endian numbers: "AMAT" and "GRMT". *)
Definition fcc_AMAT : Z := 0x54414D41.
Definition fcc_GRMT : Z := 0x544D5247.
Definition fcc_DX9S : Z := 0x53395844.

(** The store and the container after [PackFile()] followed by a successful
    [assign] of [data]. *)
Definition load_sample (TFileType : Z) (data : list byte)
    : res (gmap positive block * PackFile * bool) :=
  let '(σ0, pf0) := PackFile_default ∅ in
  assign TFileType σ0 pf0 (Some data) (Z.of_nat (length data)).

Definition sample_store (TFileType : Z) (data : list byte) : gmap positive block :=
  match load_sample TFileType data with
  | Ok (σ, _, _) => σ
  | Fault _ => ∅
  end.

Definition sample_packfile (TFileType : Z) (data : list byte) : PackFile :=
  match load_sample TFileType data with
  | Ok (_, pf, _) => pf
  | Fault _ => MkPackFile None None
  end.

(** The store and the copy after [PackFile B(A)]. *)
Definition sample_copy (σ : gmap positive block) (A : PackFile)
    : gmap positive block * PackFile :=
  match PackFile_copy σ A with
  | Ok r => r
  | Fault _ => (σ, A)
  end.

(** The store and the container after [A.assign(data, size)]. *)
Definition sample_reassign (TFileType : Z) (σ : gmap positive block) (A : PackFile)
    (data : list byte) : gmap positive block * PackFile * bool :=
  match assign TFileType σ A (Some data) (Z.of_nat (length data)) with
  | Ok r => r
  | Fault _ => (σ, A, false)
  end.

(** A file with three chunks, two of them with the same identifier. *)
Definition twin_file : list byte :=
  encode_file fcc_AMAT
    [encode_chunk fcc_DX9S 1 other_payload;
     encode_chunk fcc_GRMT 1 sample_payload;
     encode_chunk fcc_GRMT 2 other_payload].

(** A chunk header that declares more header than the chunk spans:
    [nextChunkOffset = 0] gives a span of eight bytes, [headerSize] is 16. *)
Definition short_span_file : list byte :=
  encode_FileHeader 0 0 sizeof_FileHeader fcc_AMAT
    ++ encode_ChunkHeader fcc_GRMT 0 1 16 0.

(** A chunk header that declares a span of 108 bytes in a vector that has
    24 bytes left. *)
Definition overrun_file : list byte :=
  encode_FileHeader 0 0 sizeof_FileHeader fcc_AMAT
    ++ encode_ChunkHeader fcc_GRMT 100 1 16 0 ++ sample_payload.

(** Eight bytes that read as a chunk with magic "DX9S" and
    [nextChunkOffset = 0], directly followed by a regular chunk: the
    [headerSize] field of the first lies inside the second one's magic. *)
Definition overlap_file : list byte :=
  encode_FileHeader 0 0 sizeof_FileHeader fcc_AMAT
    ++ encode_u32 fcc_DX9S ++ encode_u32 0
    ++ encode_chunk fcc_GRMT 1 sample_payload.

(** A vector that ends in the middle of a chunk header. *)
Definition truncated_file : list byte :=
  encode_file fcc_AMAT [encode_chunk fcc_DX9S 1 other_payload]
    ++ encode_u32 fcc_GRMT ++ encode_u32 16.

(** A chunk whose [nextChunkOffset] is 2^32 - 8: on a platform with a
    32-bit [size_t] its span wraps around to zero. *)
Definition zero_span_file : list byte :=
  encode_FileHeader 0 0 sizeof_FileHeader fcc_AMAT
    ++ encode_ChunkHeader fcc_DX9S 0xFFFFFFF8 1 16 0 ++ sample_payload.

(** A file system with one file, for the sample runs of [load]. *)
Definition sample_fs (name : string) (content : list byte)
    : string -> option (list byte) :=
  fun p_filename => if String.eqb p_filename name then Some content else None.

(** A chunk to be written: its identifier, its version and its payload. *)
Record chunk_data : Type := ChunkData {
  cd_magic : Z;
  cd_version : Z;
  cd_payload : list byte
}.

Definition encode_chunk_data (c : chunk_data) : list byte :=
  encode_chunk (cd_magic c) (cd_version c) (cd_payload c).

Definition encode_chunks (cs : list chunk_data) : list byte :=
  concat (map encode_chunk_data cs).

(** What can be written as a chunk: the identifier is a 32-bit number and
    the chunk as a whole is shorter than 2^32 bytes. *)
Definition writable (c : chunk_data) : Prop :=
  0 <= cd_magic c < 2 ^ 32
  /\ Z.of_nat (length (cd_payload c)) + sizeof_ChunkHeader < 2 ^ 32.

(** Three chunks to write, the last two with the same identifier. *)
Definition sample_chunks : list chunk_data :=
  [ChunkData fcc_DX9S 1 other_payload;
   ChunkData fcc_GRMT 1 sample_payload;
   ChunkData fcc_GRMT 2 other_payload].

(** The result of a raw lookup without the identity of the vector: the
    offset of the returned pointer and the size. *)
Definition offset_and_size (r : res (option ptr * Z)) : res (option Z * Z) :=
  match r with
  | Ok (Some q, size) => Ok (Some q.2, size)
  | Ok (None, size) => Ok (None, size)
  | Fault f => Fault f
  end.

(** A file whose file header carries other values than usual in the three
    fields nobody checks. *)
Definition odd_header_file : list byte :=
  encode_FileHeader 0xBEEF 7 200 fcc_AMAT ++ encode_chunks sample_chunks.


(** * Properties *)

Lemma Forall_weaken {A} (P Q : A -> Prop) (l : list A) :
  Forall P l -> (forall x, P x -> Q x) -> Forall Q l.
Proof. induction 1; constructor; auto. Qed.

(** ** Reads *)

Lemma byte_val_range (b : byte) : 0 <= byte_val b < 256.
Proof.
  unfold byte_val. pose proof (Byte.to_N_bounded b) as Hb.
  split; [apply N2Z.is_nonneg | lia].
Qed.

Lemma u8_at_range d off : 0 <= u8_at d off < 256.
Proof. apply byte_val_range. Qed.

Lemma u16_at_range d off : 0 <= u16_at d off < 65536.
Proof.
  unfold u16_at.
  pose proof (u8_at_range d off). pose proof (u8_at_range d (off + 1)). lia.
Qed.

Lemma u32_at_range d off : 0 <= u32_at d off < 2 ^ 32.
Proof.
  unfold u32_at.
  pose proof (u16_at_range d off). pose proof (u16_at_range d (off + 2)).
  change (2 ^ 32) with 4294967296. lia.
Qed.

Lemma read_u8_in d off :
  0 <= off < Z.of_nat (length d) -> read_u8 d off = Ok (u8_at d off).
Proof.
  intros Hoff. unfold read_u8, u8_at.
  destruct (decide (0 <= off)) as [_ | Hneg]; [| lia].
  destruct (d !! Z.to_nat off) as [b |] eqn:Hl; [reflexivity |].
  apply lookup_ge_None in Hl. lia.
Qed.

Lemma read_u16_in d off :
  0 <= off -> off + 2 <= Z.of_nat (length d) -> read_u16 d off = Ok (u16_at d off).
Proof.
  intros H0 H2. unfold read_u16.
  rewrite !read_u8_in by lia. reflexivity.
Qed.

Lemma read_u32_in d off :
  0 <= off -> off + 4 <= Z.of_nat (length d) -> read_u32 d off = Ok (u32_at d off).
Proof.
  intros H0 H4. unfold read_u32.
  rewrite !read_u16_in by lia. reflexivity.
Qed.

(** ** One turn of the loop *)

Section ScanFacts.

Variable size_bits : Z.
Variable d : list byte.
Variable p_identifier : Z.

Local Abbreviation len := (Z.of_nat (length d)).

Lemma scan_stop fuel p po :
  ~ (p + sizeof_ChunkHeader <= len) ->
  scan size_bits (S fuel) d p_identifier p po = Ok (None, po).
Proof.
  intros Hfit. unfold sizeof_ChunkHeader in Hfit. simpl.
  destruct (p <? len) eqn:Hlt; [| reflexivity].
  destruct (len - p <? sizeof_ChunkHeader) eqn:Hrem; [reflexivity |].
  unfold sizeof_ChunkHeader in Hrem. lia.
Qed.

Lemma scan_step fuel p po :
  0 <= p -> p + sizeof_ChunkHeader <= len ->
  scan size_bits (S fuel) d p_identifier p po =
    if magic_at d p =? p_identifier
    then Ok (Some (p + sizeof_ChunkHeader), payloadSize_at size_bits d p)
    else scan size_bits fuel d p_identifier (p + chunkSize_at size_bits d p) po.
Proof.
  intros Hp Hfit. unfold sizeof_ChunkHeader in Hfit.
  cbn [scan].
  destruct (p <? len) eqn:Hlt; [| lia].
  destruct (len - p <? sizeof_ChunkHeader) eqn:Hrem;
    [unfold sizeof_ChunkHeader in Hrem; lia |].
  unfold offsetof_nextChunkOffset, off_ChunkHeader_magic,
    off_ChunkHeader_headerSize.
  rewrite !read_u32_in by lia. cbn [mbind res_bind].
  unfold magic_at, off_ChunkHeader_magic.
  destruct (u32_at d (p + 0) =? p_identifier) eqn:Hm; [| reflexivity].
  rewrite read_u16_in by lia. reflexivity.
Qed.

Lemma to_size_t_nonneg x : 0 <= x -> 0 <= to_size_t size_bits x.
Proof.
  intros Hx. unfold to_size_t.
  destruct (Z.eq_dec (2 ^ size_bits) 0) as [E | E].
  - rewrite E, Z.mod_0_r. exact Hx.
  - apply Z.mod_pos_bound. pose proof (Z.pow_nonneg 2 size_bits). lia.
Qed.

Lemma chunkSize_nonneg p : 0 <= chunkSize_at size_bits d p.
Proof.
  unfold chunkSize_at, nextChunkOffset_at, offsetof_nextChunkOffset,
    sizeof_nextChunkOffset.
  pose proof (u32_at_range d (p + 4)) as Hn.
  apply to_size_t_nonneg.
  pose proof (to_size_t_nonneg (u32_at d (p + 4) + 4)). lia.
Qed.

(** The loop itself never reads outside the vector: the only way for the
    model not to produce a result is to run out of fuel. *)
Lemma scan_fault fuel : forall p po f,
  0 <= p ->
  scan size_bits fuel d p_identifier p po = Fault f -> f = OutOfFuel.
Proof.
  induction fuel as [| fuel IH]; intros p po f Hp Hs.
  - simpl in Hs. congruence.
  - destruct (Z_le_dec (p + sizeof_ChunkHeader) len) as [Hfit | Hfit].
    + rewrite scan_step in Hs by assumption.
      destruct (magic_at d p =? p_identifier); [discriminate |].
      apply IH in Hs; [exact Hs |].
      pose proof (chunkSize_nonneg p). lia.
    + rewrite scan_stop in Hs by assumption. discriminate.
Qed.

Lemma scan_fuel_mono fuel : forall fuel' p po r,
  (fuel <= fuel')%nat ->
  scan size_bits fuel d p_identifier p po = Ok r ->
  scan size_bits fuel' d p_identifier p po = Ok r.
Proof.
  induction fuel as [| fuel IH]; intros fuel' p po r Hle Hs.
  - simpl in Hs. discriminate.
  - destruct fuel' as [| fuel']; [lia |].
    cbn [scan] in *.
    destruct (p <? len); [| exact Hs].
    destruct (len - p <? sizeof_ChunkHeader); [exact Hs |].
    destruct (read_u32 d (p + offsetof_nextChunkOffset)) as [nco |];
      [| exact Hs].
    cbn [mbind res_bind] in *.
    destruct (read_u32 d (p + off_ChunkHeader_magic)) as [m |]; [| exact Hs].
    cbn [mbind res_bind] in *.
    destruct (m =? p_identifier); [exact Hs |].
    apply IH; [lia | exact Hs].
Qed.

(** Whatever the loop returns as "not found" leaves [po_size] as it was,
    and what it returns as found is the payload of a header it saw. *)
Lemma scan_result fuel : forall p po o size,
  0 <= p ->
  scan size_bits fuel d p_identifier p po = Ok (o, size) ->
  match o with
  | None => size = po
  | Some off =>
      exists q, p <= q /\ q + sizeof_ChunkHeader <= len
        /\ magic_at d q = p_identifier
        /\ off = q + sizeof_ChunkHeader
        /\ size = payloadSize_at size_bits d q
  end.
Proof.
  induction fuel as [| fuel IH]; intros p po o size Hp Hs.
  - simpl in Hs. discriminate.
  - destruct (Z_le_dec (p + sizeof_ChunkHeader) len) as [Hfit | Hfit].
    + rewrite scan_step in Hs by assumption.
      destruct (magic_at d p =? p_identifier) eqn:Hm.
      * injection Hs as <- <-. exists p.
        apply Z.eqb_eq in Hm. repeat split; try assumption; lia.
      * pose proof (chunkSize_nonneg p) as Hc.
        apply IH in Hs; [| lia].
        destruct o as [off |]; [| exact Hs].
        destruct Hs as (q & Hq & Hrest). exists q. split; [lia | exact Hrest].
    + rewrite scan_stop in Hs by assumption. injection Hs as <- <-. reflexivity.
Qed.

End ScanFacts.

(** ** Platforms whose [size_t] is wider than 32 bits *)

Section WideSize.

Variable size_bits : Z.
Hypothesis size_wide : 32 < size_bits.

Lemma size_t_modulus : 2 ^ 33 <= 2 ^ size_bits.
Proof. apply Z.pow_le_mono_r; lia. Qed.

Lemma to_size_t_small x : 0 <= x < 2 ^ 33 -> to_size_t size_bits x = x.
Proof.
  intros Hx. unfold to_size_t. apply Z.mod_small.
  pose proof size_t_modulus. lia.
Qed.

Lemma chunkSize_wide d p :
  chunkSize_at size_bits d p = nextChunkOffset_at d p + 8.
Proof.
  unfold chunkSize_at, nextChunkOffset_at, offsetof_nextChunkOffset,
    sizeof_nextChunkOffset.
  pose proof (u32_at_range d (p + 4)) as Hn.
  change (2 ^ 32) with 4294967296 in Hn.
  rewrite (to_size_t_small (u32_at d (p + 4) + 4))
    by (change (2 ^ 33) with 8589934592; lia).
  rewrite to_size_t_small by (change (2 ^ 33) with 8589934592; lia).
  lia.
Qed.

Lemma to_uint32_size_t x : to_uint32 (to_size_t size_bits x) = to_uint32 x.
Proof.
  unfold to_uint32, to_size_t.
  apply Z.mod_mod_divide.
  exists (2 ^ (size_bits - 32)).
  rewrite <- Z.pow_add_r by lia. f_equal. lia.
Qed.

Lemma payloadSize_wide d p :
  payloadSize_at size_bits d p =
    (nextChunkOffset_at d p + 8 - headerSize_at d p) mod 2 ^ 32.
Proof.
  unfold payloadSize_at. rewrite to_uint32_size_t, chunkSize_wide. reflexivity.
Qed.

(** Every turn of the loop moves at least eight bytes forward, so the
    loop ends: from [p] on, fuel beyond the number of bytes that are left
    is never used up. *)
Lemma scan_total d p_identifier po : forall (k : nat) p,
  0 <= p ->
  Z.of_nat (length d) - p <= Z.of_nat k ->
  exists r, forall fuel,
    Z.max 0 (Z.of_nat (length d) - p) < Z.of_nat fuel ->
    scan size_bits fuel d p_identifier p po = Ok r.
Proof.
  induction k as [| k IH]; intros p Hp Hk.
  - exists (None, po). intros [| fuel] Hf; [lia |].
    apply scan_stop. unfold sizeof_ChunkHeader. lia.
  - destruct (Z_le_dec (p + sizeof_ChunkHeader) (Z.of_nat (length d)))
      as [Hfit | Hfit].
    + destruct (magic_at d p =? p_identifier) eqn:Hm.
      * exists (Some (p + sizeof_ChunkHeader), payloadSize_at size_bits d p).
        intros [| fuel] Hf; [lia |].
        rewrite scan_step, Hm by assumption. reflexivity.
      * pose proof (chunkSize_wide d p) as Hc.
        pose proof (u32_at_range d (p + offsetof_nextChunkOffset)) as Hn.
        fold (nextChunkOffset_at d p) in Hn.
        destruct (IH (p + chunkSize_at size_bits d p)) as [r Hr]; [lia | lia |].
        exists r. intros [| fuel] Hf; [lia |].
        rewrite scan_step, Hm by assumption.
        apply Hr. unfold sizeof_ChunkHeader in Hfit. lia.
    + exists (None, po). intros [| fuel] Hf; [lia |].
      apply scan_stop. exact Hfit.
Qed.

(** Every vector has a chunk table, and only one. *)
Lemma chunk_table_exists d : forall (k : nat) p,
  0 <= p ->
  Z.of_nat (length d) - p <= Z.of_nat k ->
  exists l, chunk_table size_bits d p l.
Proof.
  induction k as [| k IH]; intros p Hp Hk.
  - exists []. constructor. unfold sizeof_ChunkHeader. lia.
  - destruct (Z_le_dec (p + sizeof_ChunkHeader) (Z.of_nat (length d)))
      as [Hfit | Hfit].
    + pose proof (chunkSize_wide d p) as Hc.
      pose proof (u32_at_range d (p + offsetof_nextChunkOffset)) as Hn.
      fold (nextChunkOffset_at d p) in Hn.
      destruct (IH (p + chunkSize_at size_bits d p)) as [l Hl]; [lia | lia |].
      exists (p :: l). constructor; assumption.
    + exists []. constructor. exact Hfit.
Qed.

End WideSize.

Lemma chunk_table_unique size_bits d p l1 :
  chunk_table size_bits d p l1 ->
  forall l2, chunk_table size_bits d p l2 -> l1 = l2.
Proof.
  induction 1 as [p Hfit | p l Hp Hfit Htl IH]; intros l2 H2.
  - inversion H2; [reflexivity | contradiction].
  - inversion H2 as [| p' l' Hp' Hfit' Htl']; [contradiction |].
    subst. f_equal. apply IH. assumption.
Qed.

(** A header whose span is zero has no table behind it: the table would
    have to list that header over and over. *)
Lemma chunk_table_zero_span size_bits d l : forall p,
  0 <= p -> p + sizeof_ChunkHeader <= Z.of_nat (length d) ->
  chunkSize_at size_bits d p = 0 ->
  ~ chunk_table size_bits d p l.
Proof.
  induction l as [| q l IH]; intros p Hp Hfit Hzero Ht.
  - inversion Ht. contradiction.
  - inversion Ht as [| p' l' Hp' Hfit' Htl]; subst.
    rewrite Hzero, Z.add_0_r in Htl. exact (IH q Hp Hfit Hzero Htl).
Qed.

(** So every header of a table has a span of at least one byte. *)
Lemma chunk_table_step size_bits d p l :
  chunk_table size_bits d p (p :: l) -> 1 <= chunkSize_at size_bits d p.
Proof.
  intros Ht. inversion Ht as [| p' l' Hp Hfit Htl]; subst.
  pose proof (chunkSize_nonneg size_bits d p) as Hc.
  destruct (Z.eq_dec (chunkSize_at size_bits d p) 0) as [Hzero | Hnz]; [| lia].
  exfalso. exact (chunk_table_zero_span size_bits d (p :: l) p Hp Hfit Hzero Ht).
Qed.

(** A vector holds at most one chunk header per byte after [p]. *)
Lemma chunk_table_length size_bits d p l :
  chunk_table size_bits d p l ->
  Z.of_nat (length l) <= Z.max 0 (Z.of_nat (length d) - p).
Proof.
  induction 1 as [p Hfit | p l Hp Hfit Htl IH].
  - simpl. lia.
  - pose proof (chunk_table_step size_bits d p l
                  (table_chunk size_bits d p l Hp Hfit Htl)) as Hstep.
    unfold sizeof_ChunkHeader in Hfit. cbn [length]. lia.
Qed.

(** The headers of a table lie one after the other. *)
Lemma chunk_table_ascending size_bits d p l :
  chunk_table size_bits d p l -> Forall (fun q => p <= q) l.
Proof.
  induction 1 as [p Hfit | p l Hp Hfit Htl IH].
  - constructor.
  - constructor; [lia |].
    pose proof (chunkSize_nonneg size_bits d p) as Hc.
    eapply Forall_weaken; [exact IH |]. simpl. intros q Hq. lia.
Qed.

(** The loop against the chunk table: the first header whose magic is the
    requested identifier decides the result. *)
Lemma scan_chunk_table size_bits d p_identifier po p l :
  chunk_table size_bits d p l ->
  forall fuel, (length l < fuel)%nat ->
    scan size_bits fuel d p_identifier p po =
      Ok (match List.find (fun q => magic_at d q =? p_identifier) l with
          | Some q => (Some (q + sizeof_ChunkHeader), payloadSize_at size_bits d q)
          | None => (None, po)
          end).
Proof.
  induction 1 as [p Hfit | p l Hp Hfit Htl IH]; intros fuel Hf.
  - destruct fuel as [| fuel]; [lia |]. simpl List.find.
    apply scan_stop. exact Hfit.
  - destruct fuel as [| fuel]; [simpl in Hf; lia |].
    rewrite scan_step by assumption. cbn [List.find].
    destruct (magic_at d p =? p_identifier); [reflexivity |].
    apply IH. simpl in Hf. lia.
Qed.

(** ** The shared store *)

Lemma alloc_fresh (σ : heap) d : σ !! (alloc σ d).2 = None.
Proof.
  unfold alloc. simpl. apply not_elem_of_dom. apply is_fresh.
Qed.

Lemma alloc_lookup (σ : heap) d : (alloc σ d).1 !! (alloc σ d).2 = Some (Block 1 d).
Proof. unfold alloc. simpl. apply lookup_insert_eq. Qed.

Lemma alloc_lookup_ne (σ : heap) d h :
  is_Some (σ !! h) -> (alloc σ d).1 !! h = σ !! h.
Proof.
  intros [b Hb]. unfold alloc. simpl.
  apply lookup_insert_ne. intros E.
  pose proof (alloc_fresh σ d) as Hf. unfold alloc in Hf. simpl in Hf.
  rewrite E in Hf. congruence.
Qed.

Lemma acquire_lookup (σ : heap) h b :
  σ !! h = Some b -> acquire h σ !! h = Some (Block (S (refs b)) (bytes b)).
Proof. intros Hb. unfold acquire. rewrite lookup_alter_eq, Hb. reflexivity. Qed.

Lemma acquire_lookup_ne (σ : heap) h h' : h <> h' -> acquire h σ !! h' = σ !! h'.
Proof. intros Hne. unfold acquire. apply lookup_alter_ne. exact Hne. Qed.

Lemma release_lookup_ne (σ : heap) h h' : h <> h' -> release h σ !! h' = σ !! h'.
Proof.
  intros Hne. unfold release.
  destruct (σ !! h) as [b |] eqn:Hb; [| reflexivity].
  destruct (refs b <=? 1)%nat.
  - apply lookup_delete_ne. exact Hne.
  - apply lookup_insert_ne. exact Hne.
Qed.

(** Letting go of a vector that has another owner leaves it in the store,
    with the same content. *)
Lemma release_shared (σ : heap) h n d :
  σ !! h = Some (Block (S (S n)) d) -> release h σ !! h = Some (Block (S n) d).
Proof.
  intros Hb. unfold release. rewrite Hb. simpl.
  apply lookup_insert_eq.
Qed.

(** Letting go of the last share destroys the vector. *)
Lemma release_last (σ : heap) h d :
  σ !! h = Some (Block 1 d) -> release h σ !! h = None.
Proof.
  intros Hb. unfold release. rewrite Hb. simpl. apply lookup_delete_eq.
Qed.

Lemma view_bytes_ext (σ1 σ2 : heap) (p : ptr) size :
  σ1 !! p.1 = σ2 !! p.1 \/
    (exists b1 b2, σ1 !! p.1 = Some b1 /\ σ2 !! p.1 = Some b2 /\ bytes b1 = bytes b2) ->
  view_bytes σ1 p size = view_bytes σ2 p size.
Proof.
  intros [E | (b1 & b2 & H1 & H2 & E)]; unfold view_bytes.
  - rewrite E. reflexivity.
  - rewrite H1, H2, E. reflexivity.
Qed.

(** ** Header bytes *)

Lemma byte_val_inj b1 b2 : byte_val b1 = byte_val b2 -> b1 = b2.
Proof.
  unfold byte_val. intros E. apply N2Z.inj in E.
  pose proof (Byte.of_to_N b1) as H1. pose proof (Byte.of_to_N b2) as H2.
  rewrite E in H1. congruence.
Qed.

Lemma u8_at_take d n off :
  0 <= off < n -> u8_at (take (Z.to_nat n) d) off = u8_at d off.
Proof.
  intros Hoff. unfold u8_at. rewrite lookup_take_lt by lia. reflexivity.
Qed.

Lemma u32_at_take d n off :
  0 <= off -> off + 4 <= n -> u32_at (take (Z.to_nat n) d) off = u32_at d off.
Proof.
  intros H0 H4. unfold u32_at, u16_at.
  rewrite !u8_at_take by lia. reflexivity.
Qed.

Lemma read_u8_lookup d off v :
  read_u8 d off = Ok v ->
  exists b, d !! Z.to_nat off = Some b /\ v = byte_val b /\ 0 <= off.
Proof.
  unfold read_u8. destruct (decide (0 <= off)); [| discriminate].
  destruct (d !! Z.to_nat off) as [b |]; [| discriminate].
  intros [= <-]. exists b. auto.
Qed.

Lemma read_u8_some d off b :
  0 <= off -> d !! Z.to_nat off = Some b -> read_u8 d off = Ok (byte_val b).
Proof.
  intros H0 Hl. unfold read_u8.
  destruct (decide (0 <= off)); [| lia]. rewrite Hl. reflexivity.
Qed.

Lemma read_u32_value d off v : read_u32 d off = Ok v -> v = u32_at d off.
Proof.
  unfold read_u32, read_u16, u32_at, u16_at.
  destruct (read_u8 d off) as [b0 |] eqn:E0; [| discriminate].
  destruct (read_u8 d (off + 1)) as [b1 |] eqn:E1; [| discriminate].
  cbn [mbind res_bind mret res_ret].
  destruct (read_u8 d (off + 2)) as [b2 |] eqn:E2; [| discriminate].
  destruct (read_u8 d (off + 2 + 1)) as [b3 |] eqn:E3; [| discriminate].
  cbn [mbind res_bind mret res_ret]. intros [= <-].
  apply read_u8_lookup in E0 as (c0 & L0 & -> & _).
  apply read_u8_lookup in E1 as (c1 & L1 & -> & _).
  apply read_u8_lookup in E2 as (c2 & L2 & -> & _).
  apply read_u8_lookup in E3 as (c3 & L3 & -> & _).
  unfold u8_at. rewrite L0, L1, L2, L3. reflexivity.
Qed.

(** ** [assign] *)

Section AssignFacts.

Variable TFileType : Z.

(** What [assign] does with data it accepts. *)
Lemma assign_accepts (σ : heap) this mem p_size :
  sizeof_FileHeader <= p_size <= Z.of_nat (length mem) ->
  mem !! 0%nat = Some "P"%byte ->
  mem !! 1%nat = Some "F"%byte ->
  u32_at mem off_FileHeader_contentType = TFileType ->
  assign TFileType σ this (Some mem) p_size =
    let '(σ1, h) := alloc σ (take (Z.to_nat p_size) mem) in
    Ok (release_opt (m_data this) σ1, MkPackFile (Some h) (Some (h, 0)), true).
Proof.
  intros Hsz HP HF HT. unfold sizeof_FileHeader in Hsz. unfold assign.
  destruct (p_size =? 0) eqn:E0; [lia |].
  destruct (p_size <? sizeof_FileHeader) eqn:E1;
    [unfold sizeof_FileHeader in E1; lia |].
  unfold off_FileHeader_magic0, off_FileHeader_magic1.
  rewrite (read_u8_some mem 0 "P") by (exact HP || lia).
  cbn [mbind res_bind]. rewrite Z.eqb_refl. cbn [negb].
  rewrite (read_u8_some mem 1 "F") by (exact HF || lia).
  cbn [mbind res_bind]. rewrite Z.eqb_refl. cbn [negb].
  unfold off_FileHeader_contentType in *.
  rewrite read_u32_in by lia. cbn [mbind res_bind].
  rewrite HT, Z.eqb_refl. cbn [negb].
  unfold read_bytes. destruct (decide (0 <= p_size <= Z.of_nat (length mem)));
    [| lia].
  reflexivity.
Qed.

(** Every outcome of [assign] is one of two: nothing changed and [false],
    or accepted data in a new vector and [true]. *)
Lemma assign_cases (σ : heap) this p_data p_size r :
  assign TFileType σ this p_data p_size = Ok r ->
  r = (σ, this, false) \/
  exists mem,
    p_data = Some mem
    /\ sizeof_FileHeader <= p_size <= Z.of_nat (length mem)
    /\ mem !! 0%nat = Some "P"%byte
    /\ mem !! 1%nat = Some "F"%byte
    /\ u32_at mem off_FileHeader_contentType = TFileType
    /\ r = (release_opt (m_data this) (alloc σ (take (Z.to_nat p_size) mem)).1,
            MkPackFile (Some (alloc σ (take (Z.to_nat p_size) mem)).2)
                       (Some ((alloc σ (take (Z.to_nat p_size) mem)).2, 0)),
            true).
Proof.
  unfold assign. destruct p_data as [mem |]; [| intros [= <-]; left; reflexivity].
  destruct (p_size =? 0) eqn:E0; [intros [= <-]; left; reflexivity |].
  destruct (p_size <? sizeof_FileHeader) eqn:E1;
    [intros [= <-]; left; reflexivity |].
  destruct (read_u8 mem off_FileHeader_magic0) as [m0 |] eqn:R0; [| discriminate].
  cbn [mbind res_bind].
  destruct (m0 =? byte_val "P") eqn:EP; cbn [negb];
    [| intros [= <-]; left; reflexivity].
  destruct (read_u8 mem off_FileHeader_magic1) as [m1 |] eqn:R1; [| discriminate].
  cbn [mbind res_bind].
  destruct (m1 =? byte_val "F") eqn:EF; cbn [negb];
    [| intros [= <-]; left; reflexivity].
  destruct (read_u32 mem off_FileHeader_contentType) as [ct |] eqn:RT;
    [| discriminate].
  cbn [mbind res_bind].
  destruct (ct =? TFileType) eqn:ET; cbn [negb];
    [| intros [= <-]; left; reflexivity].
  unfold read_bytes.
  destruct (decide (0 <= p_size <= Z.of_nat (length mem))) as [Hsz |];
    [| discriminate].
  cbn [mbind res_bind]. intros [= <-]. right. exists mem.
  apply read_u8_lookup in R0 as (b0 & L0 & -> & _).
  apply read_u8_lookup in R1 as (b1 & L1 & -> & _).
  apply Z.eqb_eq, byte_val_inj in EP. apply Z.eqb_eq, byte_val_inj in EF.
  apply read_u32_value in RT. apply Z.eqb_eq in ET. subst.
  repeat split; try assumption; try lia.
Qed.

(** Data taken in by [assign] makes a loaded container, whatever the
    container held before. *)
Lemma assign_loaded (σ : heap) this mem p_size :
  packfile_inv TFileType σ this ->
  sizeof_FileHeader <= p_size <= Z.of_nat (length mem) ->
  mem !! 0%nat = Some "P"%byte ->
  mem !! 1%nat = Some "F"%byte ->
  u32_at mem off_FileHeader_contentType = TFileType ->
  let σ1h := alloc σ (take (Z.to_nat p_size) mem) in
  loaded TFileType (release_opt (m_data this) σ1h.1)
    (MkPackFile (Some σ1h.2) (Some (σ1h.2, 0))) σ1h.2
    (take (Z.to_nat p_size) mem).
Proof.
  intros Hinv Hsz HP HF HT σ1h. unfold sizeof_FileHeader in Hsz.
  assert (Hnew : release_opt (m_data this) σ1h.1 !! σ1h.2
                 = Some (Block 1 (take (Z.to_nat p_size) mem))).
  { unfold packfile_inv in Hinv.
    destruct (m_data this) as [h0 |]; simpl.
    - destruct Hinv as (b & Hb & _).
      rewrite release_lookup_ne; [apply alloc_lookup |].
      intros E. pose proof (alloc_fresh σ (take (Z.to_nat p_size) mem)) as Hf.
      subst σ1h. unfold alloc in Hf, E. simpl in Hf, E.
      rewrite <- E in Hf. congruence.
    - apply alloc_lookup. }
  unfold loaded. simpl. repeat split.
  - exists 0%nat. exact Hnew.
  - unfold sizeof_FileHeader. rewrite length_take. lia.
  - rewrite lookup_take_lt by lia. exact HP.
  - rewrite lookup_take_lt by lia. exact HF.
  - unfold off_FileHeader_contentType in *. rewrite u32_at_take by lia. exact HT.
Qed.

End AssignFacts.

Lemma loaded_inv TFileType (σ : heap) pf h d :
  loaded TFileType σ pf h d -> packfile_inv TFileType σ pf.
Proof.
  intros (Hd & Hh & (n & Hb) & Hv). unfold packfile_inv. rewrite Hd.
  exists (Block (S n) d). simpl. split; [exact Hb |]. split; [lia |].
  destruct d as [| b0 d'].
  - destruct Hv as (Hlen & _). unfold sizeof_FileHeader in Hlen. simpl in Hlen. lia.
  - split; assumption.
Qed.

(** ** The raw lookup on a loaded container *)

Lemma chunk_fuel_loaded size_bits TFileType (σ : heap) pf h d fuel id :
  loaded TFileType σ pf h d ->
  chunk_fuel size_bits fuel σ pf id =
    match scan size_bits fuel d id sizeof_FileHeader 0 with
    | Ok (Some off, size) => Ok (Some (h, off), size)
    | Ok (None, size) => Ok (None, size)
    | Fault f => Fault f
    end.
Proof.
  intros (Hd & Hh & (n & Hb) & _). unfold chunk_fuel.
  rewrite Hh, Hd, Hb. reflexivity.
Qed.

Lemma chunk_loaded size_bits TFileType (σ : heap) pf h d id :
  loaded TFileType σ pf h d ->
  chunk size_bits σ pf id = chunk_fuel size_bits (S (length d)) σ pf id.
Proof.
  intros (Hd & Hh & (n & Hb) & _). unfold chunk, deref.
  rewrite Hd, Hb. reflexivity.
Qed.

Lemma chunk_is_chunk_fuel size_bits (σ : heap) pf id :
  exists fuel, chunk size_bits σ pf id = chunk_fuel size_bits fuel σ pf id.
Proof.
  unfold chunk. destruct (deref σ (m_data pf)); eauto.
Qed.

(** ** Not found means size zero *)

Lemma chunk_fuel_null_zero size_bits (σ : heap) this p_identifier fuel po_size :
  chunk_fuel size_bits fuel σ this p_identifier = Ok (None, po_size) ->
  po_size = 0.
Proof.
  intros Hnull. unfold chunk_fuel in Hnull.
  destruct (m_header this); [| congruence].
  destruct (m_data this) as [h |]; [| discriminate].
  destruct (σ !! h) as [b |]; [| discriminate].
  destruct (scan size_bits fuel (bytes b) p_identifier sizeof_FileHeader 0)
    as [[[off |] size] |] eqn:Hs; try discriminate.
  injection Hnull as <-.
  apply scan_result in Hs; [exact Hs | unfold sizeof_FileHeader; lia].
Qed.

Lemma chunk_null_zero size_bits (σ : heap) this p_identifier po_size :
  chunk size_bits σ this p_identifier = Ok (None, po_size) -> po_size = 0.
Proof.
  destruct (chunk_is_chunk_fuel size_bits σ this p_identifier) as [fuel ->].
  apply chunk_fuel_null_zero.
Qed.

(** C10. Whenever the raw lookup [chunk(p_identifier, po_size)] returns the
    null pointer, be it because no data is loaded or because the scan ended
    without a match, [po_size] has been set to zero. *)
Theorem chunk_not_found_size_zero size_bits (σ : heap) (this : PackFile)
    (p_identifier : Z) (fuel : nat) (po_size : Z)
    (Hnull : chunk_fuel size_bits fuel σ this p_identifier = Ok (None, po_size)) :
  po_size = 0.
Proof.
  unfold chunk_fuel in Hnull.
  destruct (m_header this) as [hdr |].
  - destruct (m_data this) as [h |]; [| discriminate].
    destruct (σ !! h) as [b |]; [| discriminate].
    destruct (scan size_bits fuel (bytes b) p_identifier sizeof_FileHeader 0)
      as [[[off |] size] |] eqn:Hs; try discriminate.
    injection Hnull as <-.
    apply scan_result in Hs; [exact Hs | unfold sizeof_FileHeader; lia].
  - injection Hnull as <-. reflexivity.
Qed.

Lemma chunk_not_found_size_zero_witness :
  chunk_fuel 64 5 (sample_store fcc_AMAT (encode_file fcc_AMAT
                     [encode_chunk fcc_GRMT 1 sample_payload]))
    (sample_packfile fcc_AMAT (encode_file fcc_AMAT
                     [encode_chunk fcc_GRMT 1 sample_payload]))
    fcc_DX9S = Ok (None, 0)
  /\ 0 = 0.
Proof.
  split; [vm_compute; reflexivity |].
  apply (chunk_not_found_size_zero 64
           (sample_store fcc_AMAT (encode_file fcc_AMAT
              [encode_chunk fcc_GRMT 1 sample_payload]))
           (sample_packfile fcc_AMAT (encode_file fcc_AMAT
              [encode_chunk fcc_GRMT 1 sample_payload]))
           fcc_DX9S 5 0).
  vm_compute. reflexivity.
Defined.

(** ** The typed lookup when nothing is found *)

(** C1 (the code departs from it). The declaration of [chunk<TId>()]
    promises a [shared_ptr] that contains [nullptr] when no chunk was found.
    The body passes whatever the raw lookup returned to [std::make_shared]:
    when the raw lookup finds nothing, the [ChunkFactory] constructor is
    invoked with a null pointer and size zero, and the returned
    [shared_ptr] holds the record it built. *)
Theorem chunk_typed_absent_constructs size_bits TFileType
    (ChunkFactory_Type : Z -> Z -> Type)
    (construct : forall fileType id : Z,
        gmap positive block -> option ptr -> Z -> ChunkFactory_Type fileType id)
    (σ : heap) (this : PackFile) (TId : Z) (po_size : Z)
    (Habsent : chunk size_bits σ this TId = Ok (None, po_size)) :
  chunk_typed size_bits TFileType ChunkFactory_Type construct σ this TId =
    Ok (Some (construct TFileType TId σ None 0), [Call TFileType TId None 0]).
Proof.
  pose proof (chunk_null_zero _ _ _ _ _ Habsent) as ->.
  unfold chunk_typed. rewrite Habsent. reflexivity.
Qed.

Lemma chunk_typed_absent_constructs_witness :
  chunk 64 (PackFile_default ∅).1 (PackFile_default ∅).2 fcc_GRMT = Ok (None, 0)
  /\ chunk_typed 64 fcc_AMAT (fun _ _ => (option ptr * Z)%type)
       (fun _ _ _ data size => (data, size))
       (PackFile_default ∅).1 (PackFile_default ∅).2 fcc_GRMT
     = Ok (Some (None, 0), [Call fcc_AMAT fcc_GRMT None 0]).
Proof.
  split; [vm_compute; reflexivity |].
  apply (chunk_typed_absent_constructs 64 fcc_AMAT
           (fun _ _ => (option ptr * Z)%type)
           (fun _ _ _ data size => (data, size))
           (PackFile_default ∅).1 (PackFile_default ∅).2 fcc_GRMT 0).
  vm_compute. reflexivity.
Defined.

(** ** Data that [assign] turns down *)

(** C5. When the length is smaller than the [FileHeader], or the first two
    bytes are not 'P' and 'F', or the [contentType] field is not the
    instantiation's [TFileType], [assign] returns [false] and leaves the
    container and the store exactly as they were: the buffer, the header
    view and so every chunk view of the container are the ones from
    before. The pointer may be null; where it is not, it points to at
    least [p_size] bytes. *)
Theorem assign_invalid_keeps_state TFileType (σ : heap) (this : PackFile)
    (p_data : option (list byte)) (p_size : Z)
    (Hreadable : forall mem, p_data = Some mem -> p_size <= Z.of_nat (length mem))
    (Hinvalid : p_size < sizeof_FileHeader
                \/ forall mem, p_data = Some mem ->
                     mem !! 0%nat <> Some "P"%byte
                     \/ mem !! 1%nat <> Some "F"%byte
                     \/ u32_at mem off_FileHeader_contentType <> TFileType) :
  assign TFileType σ this p_data p_size = Ok (σ, this, false).
Proof.
  unfold assign. destruct p_data as [mem |]; [| reflexivity].
  specialize (Hreadable mem eq_refl).
  destruct (p_size =? 0) eqn:E0; [reflexivity |].
  destruct (p_size <? sizeof_FileHeader) eqn:E1; [reflexivity |].
  apply Z.ltb_ge in E1. unfold sizeof_FileHeader in E1.
  unfold off_FileHeader_magic0, off_FileHeader_magic1.
  rewrite (read_u8_in mem 0), (read_u8_in mem 1) by lia.
  cbn [mbind res_bind].
  destruct (u8_at mem 0 =? byte_val "P") eqn:EP; cbn [negb]; [| reflexivity].
  destruct (u8_at mem 1 =? byte_val "F") eqn:EF; cbn [negb]; [| reflexivity].
  unfold off_FileHeader_contentType in *.
  rewrite read_u32_in by lia. cbn [mbind res_bind].
  destruct (u32_at mem 8 =? TFileType) eqn:ET; cbn [negb]; [| reflexivity].
  exfalso.
  apply Z.eqb_eq in EP, EF, ET. unfold u8_at in EP, EF.
  destruct (mem !! Z.to_nat 0) as [b0 |] eqn:L0;
    [| apply lookup_ge_None in L0; lia].
  destruct (mem !! Z.to_nat 1) as [b1 |] eqn:L1;
    [| apply lookup_ge_None in L1; lia].
  simpl in EP, EF. apply byte_val_inj in EP, EF. subst b0 b1.
  change (Z.to_nat 0) with 0%nat in L0. change (Z.to_nat 1) with 1%nat in L1.
  destruct Hinvalid as [H | H]; [unfold sizeof_FileHeader in H; lia |].
  destruct (H mem eq_refl) as [H' | [H' | H']]; congruence.
Qed.

Lemma assign_invalid_keeps_state_witness :
  let data := encode_file fcc_AMAT [encode_chunk fcc_GRMT 1 sample_payload] in
  let wrong := encode_file fcc_GRMT [encode_chunk fcc_GRMT 1 other_payload] in
  (34 <= Z.of_nat (length wrong)
   /\ u32_at wrong off_FileHeader_contentType <> fcc_AMAT)
  /\ assign fcc_AMAT (sample_store fcc_AMAT data) (sample_packfile fcc_AMAT data)
       (Some wrong) 34
     = Ok (sample_store fcc_AMAT data, sample_packfile fcc_AMAT data, false).
Proof.
  intros data wrong.
  assert (Hlen : 34 <= Z.of_nat (length wrong)) by (vm_compute; congruence).
  assert (Htype : u32_at wrong off_FileHeader_contentType <> fcc_AMAT)
    by (vm_compute; congruence).
  split; [split; assumption |].
  apply (assign_invalid_keeps_state fcc_AMAT (sample_store fcc_AMAT data)
           (sample_packfile fcc_AMAT data) (Some wrong) 34).
  - intros mem [= <-]. exact Hlen.
  - right. intros mem [= <-]. right. right. exact Htype.
Defined.

(** ** The invariant *)

Section Invariant.

Variable TFileType : Z.

Local Abbreviation inv := (packfile_inv TFileType).

Lemma default_inv (σ : heap) :
  inv (PackFile_default σ).1 (PackFile_default σ).2.
Proof.
  unfold PackFile_default, packfile_inv, alloc. simpl.
  eexists. split; [apply lookup_insert_eq |]. simpl. split; [lia | reflexivity].
Qed.







(** A share more or less does not disturb the invariant of a container
    whose vector stays in the store with the same content. *)
Lemma inv_same_bytes (σ σ' : heap) pf :
  inv σ pf ->
  (forall h b, m_data pf = Some h -> σ !! h = Some b ->
     exists b', σ' !! h = Some b' /\ (1 <= refs b')%nat /\ bytes b' = bytes b) ->
  inv σ' pf.
Proof.
  unfold packfile_inv. intros Hinv Hsame.
  destruct (m_data pf) as [h |]; [| exact Hinv].
  destruct Hinv as (b & Hb & Hr & Hbytes).
  destruct (Hsame h b eq_refl Hb) as (b' & Hb' & Hr' & E).
  exists b'. rewrite E. auto.
Qed.






End Invariant.

(** ** Use counts are kept *)

Lemma store_ok_empty : store_ok ∅ ∅.
Proof. intros h. rewrite lookup_empty. apply multiplicity_empty. Qed.

Lemma alloc_store_ok (σ : heap) owners d :
  store_ok σ owners ->
  store_ok (alloc σ d).1 (owners ⊎ {[+ (alloc σ d).2 +]}).
Proof.
  intros Hok h. pose proof (alloc_fresh σ d) as Hfresh.
  unfold alloc in *. simpl in *. rewrite multiplicity_disj_union.
  destruct (decide (h = fresh (dom σ))) as [-> | Hne].
  - rewrite lookup_insert_eq, multiplicity_singleton_eq. simpl.
    specialize (Hok (fresh (dom σ))). rewrite Hfresh in Hok. lia.
  - rewrite lookup_insert_ne by congruence.
    rewrite multiplicity_singleton_ne by exact Hne.
    specialize (Hok h). destruct (σ !! h); lia.
Qed.

Lemma acquire_store_ok (σ : heap) owners h0 :
  store_ok σ owners -> is_Some (σ !! h0) ->
  store_ok (acquire h0 σ) (owners ⊎ {[+ h0 +]}).
Proof.
  intros Hok [b0 Hb0] h. rewrite multiplicity_disj_union.
  destruct (decide (h = h0)) as [-> | Hne].
  - rewrite (acquire_lookup _ _ _ Hb0), multiplicity_singleton_eq. simpl.
    specialize (Hok h0). rewrite Hb0 in Hok. lia.
  - rewrite acquire_lookup_ne by congruence.
    rewrite multiplicity_singleton_ne by exact Hne.
    specialize (Hok h). destruct (σ !! h); lia.
Qed.

Lemma release_store_ok (σ : heap) owners h0 :
  store_ok σ owners -> store_ok (release h0 σ) (owners ∖ {[+ h0 +]}).
Proof.
  intros Hok h. rewrite multiplicity_difference.
  destruct (decide (h = h0)) as [-> | Hne].
  - rewrite multiplicity_singleton_eq. specialize (Hok h0).
    unfold release. destruct (σ !! h0) as [b0 |] eqn:Hb0.
    + destruct (refs b0 <=? 1)%nat eqn:Hle.
      * apply Nat.leb_le in Hle. rewrite lookup_delete_eq. lia.
      * apply Nat.leb_gt in Hle. rewrite lookup_insert_eq. simpl. lia.
    + rewrite Hb0. lia.
  - rewrite release_lookup_ne by congruence.
    rewrite multiplicity_singleton_ne by exact Hne.
    specialize (Hok h). destruct (σ !! h); lia.
Qed.

Lemma release_opt_store_ok (σ : heap) owners pf :
  store_ok σ owners -> store_ok (release_opt (m_data pf) σ) (owners ∖ owner pf).
Proof.
  intros Hok. unfold owner. destruct (m_data pf) as [h0 |]; simpl.
  - apply release_store_ok. exact Hok.
  - intros h. rewrite multiplicity_difference, multiplicity_empty, Nat.sub_0_r.
    apply Hok.
Qed.

Lemma default_store_ok (σ : heap) owners :
  store_ok σ owners ->
  store_ok (PackFile_default σ).1 (owners ⊎ owner (PackFile_default σ).2).
Proof. intros Hok. apply (alloc_store_ok σ owners []). exact Hok. Qed.

Lemma destroy_store_ok (σ : heap) owners this :
  store_ok σ owners -> store_ok (PackFile_destroy σ this) (owners ∖ owner this).
Proof. apply release_opt_store_ok. Qed.

Lemma copy_store_ok (σ : heap) owners p_other σ' new :
  store_ok σ owners ->
  PackFile_copy σ p_other = Ok (σ', new) ->
  store_ok σ' (owners ⊎ owner new).
Proof.
  intros Hok Hc. unfold PackFile_copy in Hc.
  destruct (m_data p_other) as [h0 |] eqn:Hd; [| discriminate]. simpl in Hc.
  destruct (acquire h0 σ !! h0) as [b1 |] eqn:Hb1; [| discriminate].
  cbn [mbind res_bind mret res_ret] in Hc. injection Hc as <- <-.
  unfold owner. simpl. apply acquire_store_ok; [exact Hok |].
  unfold acquire in Hb1. rewrite lookup_alter_eq in Hb1.
  destruct (σ !! h0); [eauto | discriminate].
Qed.

Lemma copy_assign_store_ok (σ : heap) owners this p_other σ' this' :
  store_ok σ owners ->
  PackFile_copy_assign σ this p_other = Ok (σ', this') ->
  store_ok σ' ((owners ⊎ owner this') ∖ owner this).
Proof.
  intros Hok Hc. unfold PackFile_copy_assign in Hc.
  destruct (m_data p_other) as [h0 |] eqn:Hd; [| discriminate].
  cbn [share deref] in Hc.
  destruct (release_opt (m_data this) (acquire h0 σ) !! h0) as [b1 |] eqn:Hb1;
    [| discriminate].
  cbn [mbind res_bind mret res_ret] in Hc. injection Hc as <- <-.
  apply release_opt_store_ok. unfold owner. simpl.
  destruct (σ !! h0) as [b0 |] eqn:Hb0.
  - apply acquire_store_ok; [exact Hok | eauto].
  - exfalso. assert (Hnone : acquire h0 σ !! h0 = None).
    { unfold acquire. rewrite lookup_alter_eq, Hb0. reflexivity. }
    destruct (m_data this) as [h1 |]; simpl in Hb1; [| congruence].
    unfold release in Hb1.
    destruct (acquire h0 σ !! h1) as [b |] eqn:Hb; [| congruence].
    destruct (refs b <=? 1)%nat.
    + destruct (decide (h1 = h0)) as [-> | Hne];
        [rewrite lookup_delete_eq in Hb1 | rewrite lookup_delete_ne in Hb1 by exact Hne];
        congruence.
    + destruct (decide (h1 = h0)) as [-> | Hne]; [congruence |].
      rewrite lookup_insert_ne in Hb1 by exact Hne. congruence.
Qed.

Lemma assign_store_ok TFileType (σ : heap) owners this p_data p_size σ' this' ok :
  store_ok σ owners ->
  assign TFileType σ this p_data p_size = Ok (σ', this', ok) ->
  store_ok σ' (if ok then (owners ⊎ owner this') ∖ owner this else owners).
Proof.
  intros Hok Ha. apply assign_cases in Ha
    as [[= -> -> ->] | (mem & -> & Hsz & HP & HF & HT & [= -> -> ->])].
  - exact Hok.
  - apply release_opt_store_ok. unfold owner. simpl.
    apply alloc_store_ok. exact Hok.
Qed.

(** ** Other containers

    What one container does with its share leaves the vectors of the other
    containers that are alive in the store, with the bytes they had. *)

Lemma release_keeps_others (σ : heap) owners this other h b :
  store_ok σ owners ->
  owner this ⊎ owner other ⊆ owners ->
  m_data other = Some h -> σ !! h = Some b ->
  exists b', release_opt (m_data this) σ !! h = Some b'
             /\ (1 <= refs b')%nat /\ bytes b' = bytes b.
Proof.
  intros Hok Hown Hd Hb. pose proof (Hok h) as Hr. rewrite Hb in Hr.
  pose proof (Hown h) as Hm. rewrite multiplicity_disj_union in Hm.
  unfold owner in Hm. rewrite Hd, multiplicity_singleton_eq in Hm.
  destruct (m_data this) as [h0 |]; cbn [release_opt]; [| exists b; tauto].
  destruct (decide (h0 = h)) as [-> | Hne].
  - rewrite multiplicity_singleton_eq in Hm.
    destruct b as [r d]. simpl in *.
    destruct r as [| [| r']]; [lia | lia |].
    exists (Block (S r') d). split; [apply release_shared; exact Hb |].
    simpl. split; [lia | reflexivity].
  - rewrite release_lookup_ne by exact Hne. exists b. tauto.
Qed.

Lemma destroy_keeps_others TFileType (σ : heap) owners this other :
  store_ok σ owners ->
  owner this ⊎ owner other ⊆ owners ->
  packfile_inv TFileType σ other ->
  packfile_inv TFileType (PackFile_destroy σ this) other.
Proof.
  intros Hok Hown Hinv. apply (inv_same_bytes TFileType σ); [exact Hinv |].
  intros h b Hd Hb. eapply release_keeps_others; eassumption.
Qed.

Lemma assign_keeps_others TFileType (σ : heap) owners this other
    p_data p_size σ' this' ok :
  store_ok σ owners ->
  owner this ⊎ owner other ⊆ owners ->
  packfile_inv TFileType σ other ->
  assign TFileType σ this p_data p_size = Ok (σ', this', ok) ->
  packfile_inv TFileType σ' other.
Proof.
  intros Hok Hown Hinv Ha. apply assign_cases in Ha
    as [[= -> -> ->] | (mem & -> & Hsz & HP & HF & HT & [= -> -> ->])];
    [exact Hinv |].
  apply (inv_same_bytes TFileType σ); [exact Hinv |].
  intros h b Hd Hb.
  apply (release_keeps_others _ (owners ⊎ {[+ (alloc σ (take (Z.to_nat p_size) mem)).2 +]})
           this other h b).
  - apply alloc_store_ok. exact Hok.
  - intros x. specialize (Hown x). rewrite (multiplicity_disj_union owners). lia.
  - exact Hd.
  - refine (eq_trans (alloc_lookup_ne σ _ h _) Hb). eauto.
Qed.

(** ** [type()] *)

Lemma type_default TFileType (σ : heap) :
  type_ TFileType (PackFile_default σ).2 = 0.
Proof. reflexivity. Qed.

Lemma type_loaded TFileType (σ : heap) pf h d :
  loaded TFileType σ pf h d -> type_ TFileType pf = TFileType.
Proof. intros (_ & Hh & _). unfold type_. rewrite Hh. reflexivity. Qed.

(** A file that cannot be opened leaves the container as it was. *)
Lemma load_unopened TFileType fs (σ : heap) this p_filename :
  fs p_filename = None ->
  load TFileType fs σ this p_filename = Ok (σ, this, false).
Proof. intros Hfs. unfold load. rewrite Hfs. reflexivity. Qed.




(** ** Copies and reassignment *)

(** The store after a copy of a loaded container, made by the copy
    constructor or by assigning to a container [B0] that is alive next to
    it: the vector has at least two shares, and the copy looks at it. *)
Lemma copy_of_loaded TFileType (σ : heap) owners A h d B0 σ1 B :
  store_ok σ owners ->
  loaded TFileType σ A h d ->
  PackFile_copy σ A = Ok (σ1, B)
  \/ (owner A ⊎ owner B0 ⊆ owners /\ PackFile_copy_assign σ B0 A = Ok (σ1, B)) ->
  B = MkPackFile (Some h) (Some (h, 0))
  /\ exists m, σ1 !! h = Some (Block (S (S m)) d).
Proof.
  intros Hok (Hd & Hh & (n & Hb) & Hv) Hcopy.
  assert (Hlen : (length d =? 0)%nat = false).
  { destruct Hv as (Hlen & _). unfold sizeof_FileHeader in Hlen.
    apply Nat.eqb_neq. lia. }
  pose proof (acquire_lookup _ _ _ Hb) as Hb1. simpl in Hb1.
  destruct Hcopy as [Hc | (Hown & Hc)].
  - unfold PackFile_copy in Hc. rewrite Hd in Hc. cbn [share deref] in Hc.
    rewrite Hb1 in Hc. cbn [mbind res_bind mret res_ret bytes data_ptr] in Hc.
    rewrite Hlen in Hc. injection Hc as <- <-. eauto.
  - assert (Hb2 : exists m, release_opt (m_data B0) (acquire h σ) !! h
                            = Some (Block (S (S m)) d)).
    { destruct (m_data B0) as [h0 |] eqn:Hd0; cbn [release_opt]; [| eauto].
      destruct (decide (h0 = h)) as [-> | Hne].
      - pose proof (Hown h) as Hm. pose proof (Hok h) as Hr.
        rewrite Hb in Hr. simpl in Hr.
        rewrite multiplicity_disj_union in Hm. unfold owner in Hm.
        rewrite Hd, Hd0, !multiplicity_singleton_eq in Hm.
        destruct n as [| n']; [lia |].
        exists n'. apply release_shared. exact Hb1.
      - rewrite release_lookup_ne by exact Hne. eauto. }
    destruct Hb2 as (m & Hb2).
    unfold PackFile_copy_assign in Hc. rewrite Hd in Hc. cbn [share deref] in Hc.
    rewrite Hb2 in Hc. cbn [mbind res_bind mret res_ret bytes data_ptr] in Hc.
    rewrite Hlen in Hc. injection Hc as <- <-. eauto.
Qed.

(** C8. Let [A] be a loaded container and [B] a copy of it, made by the
    copy constructor or by copy assignment to a container [B0] that is
    alive next to [A]. Reassigning [A] with [assign] or [load], whether
    that succeeds or not, leaves [B] as it was: [B] still owns the original
    vector with the original bytes, so every lookup in [B] returns the
    pointer and the size it returned before and every view into that
    vector denotes the same bytes. *)
Theorem copy_then_reassign_isolated size_bits TFileType (σ : heap)
    (owners : gmultiset positive)
    (A : PackFile) (h : positive) (d : list byte) (B0 : PackFile)
    (σ1 : heap) (B : PackFile) fs p_data p_size p_filename
    (σ2 : heap) (A' : PackFile) (ok : bool)
    (Hok : store_ok σ owners)
    (Hloaded : loaded TFileType σ A h d)
    (Hcopy : PackFile_copy σ A = Ok (σ1, B)
             \/ (owner A ⊎ owner B0 ⊆ owners
                 /\ PackFile_copy_assign σ B0 A = Ok (σ1, B)))
    (Hreassign : assign TFileType σ1 A p_data p_size = Ok (σ2, A', ok)
                 \/ load TFileType fs σ1 A p_filename = Ok (σ2, A', ok)) :
  loaded TFileType σ1 B h d
  /\ loaded TFileType σ2 B h d
  /\ (forall fuel id,
        chunk_fuel size_bits fuel σ2 B id = chunk_fuel size_bits fuel σ1 B id)
  /\ (forall id, chunk size_bits σ2 B id = chunk size_bits σ1 B id)
  /\ (forall off size, view_bytes σ2 (h, off) size = view_bytes σ1 (h, off) size).
Proof.
  assert (Hassign : exists q_data q_size,
             assign TFileType σ1 A q_data q_size = Ok (σ2, A', ok)).
  { destruct Hreassign as [Ha | Hl]; [eauto |].
    unfold load in Hl. destruct (fs p_filename) as [content |]; [eauto |].
    injection Hl as <- <- <-. exists None, 0. reflexivity. }
  clear Hreassign. destruct Hassign as (q_data & q_size & Ha).
  destruct (copy_of_loaded _ _ _ _ _ _ _ _ _ Hok Hloaded Hcopy) as (-> & m & Hb1).
  destruct Hloaded as (Hd & Hh & _ & Hv).
  assert (HB1 : loaded TFileType σ1 (MkPackFile (Some h) (Some (h, 0))) h d).
  { unfold loaded. simpl. repeat split; eauto; apply Hv. }
  (* the reassignment *)
  assert (Hb2 : exists m', σ2 !! h = Some (Block (S m') d)).
  { apply assign_cases in Ha
      as [[= -> -> ->] | (mem & -> & Hsz & HP & HF & HT & [= -> -> ->])].
    - eauto.
    - rewrite Hd. cbn [release_opt]. exists m.
      apply release_shared.
      refine (eq_trans (alloc_lookup_ne σ1 _ h _) Hb1). eauto. }
  destruct Hb2 as (m' & Hb2).
  assert (HB2 : loaded TFileType σ2 (MkPackFile (Some h) (Some (h, 0))) h d).
  { unfold loaded. simpl. repeat split; eauto; apply Hv. }
  split; [exact HB1 |]. split; [exact HB2 |].
  split; [| split].
  - intros fuel id.
    rewrite (chunk_fuel_loaded _ _ _ _ _ _ _ _ HB2).
    rewrite (chunk_fuel_loaded _ _ _ _ _ _ _ _ HB1). reflexivity.
  - intros id.
    rewrite (chunk_loaded _ _ _ _ _ _ _ HB2), (chunk_loaded _ _ _ _ _ _ _ HB1).
    rewrite (chunk_fuel_loaded _ _ _ _ _ _ _ _ HB2).
    rewrite (chunk_fuel_loaded _ _ _ _ _ _ _ _ HB1). reflexivity.
  - intros off size. apply view_bytes_ext. right. simpl.
    eexists _, _. split; [exact Hb2 |]. split; [exact Hb1 | reflexivity].
Qed.

(** The sample store is consistent with one owner: the sample container. *)
Lemma sample_store_ok TFileType data σ pf :
  load_sample TFileType data = Ok (σ, pf, true) ->
  store_ok σ (((∅ ⊎ owner (PackFile_default ∅).2) ⊎ owner pf)
              ∖ owner (PackFile_default ∅).2).
Proof.
  intros Hload. unfold load_sample in Hload.
  pose proof (default_store_ok ∅ ∅ store_ok_empty) as Hok0.
  destruct (PackFile_default ∅) as [σ0 pf0].
  exact (assign_store_ok _ _ _ _ _ _ _ _ _ Hok0 Hload).
Qed.

Lemma copy_then_reassign_isolated_witness :
  let data := encode_file fcc_AMAT [encode_chunk fcc_GRMT 1 sample_payload] in
  let data' := encode_file fcc_AMAT [encode_chunk fcc_DX9S 2 other_payload] in
  let σ := sample_store fcc_AMAT data in
  let A := sample_packfile fcc_AMAT data in
  let σ1 := (sample_copy σ A).1 in
  let B := (sample_copy σ A).2 in
  let σ2 := (sample_reassign fcc_AMAT σ1 A data').1.1 in
  let A' := (sample_reassign fcc_AMAT σ1 A data').1.2 in
  (loaded fcc_AMAT σ A 2%positive data
   /\ PackFile_copy σ A = Ok (σ1, B)
   /\ assign fcc_AMAT σ1 A (Some data') (Z.of_nat (length data')) = Ok (σ2, A', true))
  /\ chunk 64 σ2 A' fcc_GRMT = Ok (None, 0)
  /\ chunk 64 σ2 B fcc_GRMT = Ok (Some (2%positive, 28), 8)
  /\ view_bytes σ2 (2%positive, 28) 8 = Some sample_payload
  /\ chunk 64 σ2 B fcc_GRMT = chunk 64 σ1 B fcc_GRMT
  /\ view_bytes σ2 (2%positive, 28) 8 = view_bytes σ1 (2%positive, 28) 8.
Proof.
  intros data data' σ A σ1 B σ2 A'.
  assert (Hload : load_sample fcc_AMAT data = Ok (σ, A, true))
    by (vm_compute; reflexivity).
  assert (Hloaded : loaded fcc_AMAT σ A 2%positive data).
  { unfold loaded, valid_header. repeat split; try (vm_compute; congruence).
    exists 0%nat. vm_compute. reflexivity. }
  assert (Hcopy : PackFile_copy σ A = Ok (σ1, B)) by (vm_compute; reflexivity).
  assert (Hassign : assign fcc_AMAT σ1 A (Some data') (Z.of_nat (length data'))
                    = Ok (σ2, A', true)) by (vm_compute; reflexivity).
  split; [exact (conj Hloaded (conj Hcopy Hassign)) |].
  split; [vm_compute; reflexivity |].
  split; [vm_compute; reflexivity |].
  split; [vm_compute; reflexivity |].
  destruct (copy_then_reassign_isolated 64 fcc_AMAT σ _ A 2%positive data
              (MkPackFile None None) σ1 B
              (fun _ => None) (Some data') (Z.of_nat (length data')) ""%string
              σ2 A' true (sample_store_ok _ _ _ _ Hload) Hloaded
              (or_introl Hcopy) (or_introl Hassign))
    as (_ & _ & _ & Hchunk & Hview).
  split; [apply Hchunk | apply Hview].
Defined.

(** ** First match *)

Lemma find_first {A} (f : A -> bool) (l1 : list A) (x : A) (l2 : list A) :
  Forall (fun y => f y = false) l1 -> f x = true ->
  List.find f (l1 ++ x :: l2) = Some x.
Proof.
  induction 1 as [| y l1 Hy Hl1 IH]; intros Hx; simpl.
  - rewrite Hx. reflexivity.
  - rewrite Hy. apply IH. exact Hx.
Qed.

Lemma chunk_table_suffix size_bits d : forall l1 p0 p l2,
  chunk_table size_bits d p0 (l1 ++ p :: l2) ->
  chunk_table size_bits d p (p :: l2).
Proof.
  induction l1 as [| q l1 IH]; intros p0 p l2 Ht; simpl in Ht.
  - inversion Ht; subst. exact Ht.
  - inversion Ht; subst. eapply IH. eassumption.
Qed.

Lemma chunk_table_tail_above size_bits d p l :
  chunk_table size_bits d p (p :: l) -> Forall (fun q => p < q) l.
Proof.
  intros Ht. pose proof (chunk_table_step _ _ _ _ Ht) as Hstep.
  inversion Ht as [| q' l' Hq Hfit Htl]; subst.
  pose proof (chunk_table_ascending _ _ _ _ Htl) as Hasc.
  eapply Forall_weaken; [exact Hasc |]. simpl. intros q Hq'. lia.
Qed.

Lemma chunk_table_prefix_below size_bits d : forall l1 p0 p l2,
  chunk_table size_bits d p0 (l1 ++ p :: l2) -> Forall (fun q => q < p) l1.
Proof.
  induction l1 as [| q l1 IH]; intros p0 p l2 Ht; simpl in Ht.
  - constructor.
  - assert (Hq : p0 = q) by (inversion Ht; reflexivity). subst p0.
    pose proof (chunk_table_tail_above _ _ _ _ Ht) as Habove.
    constructor.
    + apply Forall_app in Habove as [_ Hp]. inversion Hp; subst. assumption.
    + inversion Ht; subst. eapply IH. eassumption.
Qed.

(** The lookup in a loaded container, by the chunk table of its vector. *)
Lemma chunk_by_table size_bits TFileType (σ : heap) pf h d id l :
  loaded TFileType σ pf h d ->
  chunk_table size_bits d sizeof_FileHeader l ->
  chunk size_bits σ pf id =
    match List.find (fun q => magic_at d q =? id) l with
    | Some q => Ok (Some (h, q + sizeof_ChunkHeader), payloadSize_at size_bits d q)
    | None => Ok (None, 0)
    end.
Proof.
  intros Hl Ht.
  rewrite (chunk_loaded _ _ _ _ _ _ _ Hl), (chunk_fuel_loaded _ _ _ _ _ _ _ _ Hl).
  rewrite (scan_chunk_table _ _ _ _ _ _ Ht).
  - destruct (List.find _ l); reflexivity.
  - pose proof (chunk_table_length _ _ _ _ Ht) as Hlen.
    unfold sizeof_FileHeader in Hlen. lia.
Qed.

(** C9. When several chunks of a loaded container carry the requested
    identifier, the raw lookup returns the view of the first of them in
    storage order: with the chunk headers of the vector listed in the order
    in which they are stored, a header at [p] whose magic is the identifier
    while no header before it has that magic decides the result, whatever
    comes after it; the headers before [p] lie at smaller offsets and those
    after it at larger ones. *)
Theorem raw_lookup_first_match size_bits TFileType (σ : heap) (pf : PackFile)
    (h : positive) (d : list byte) (p_identifier : Z)
    (l1 : list Z) (p : Z) (l2 : list Z)
    (Hloaded : loaded TFileType σ pf h d)
    (Htable : chunk_table size_bits d sizeof_FileHeader (l1 ++ p :: l2))
    (Hbefore : Forall (fun q => magic_at d q <> p_identifier) l1)
    (Hmatch : magic_at d p = p_identifier) :
  chunk size_bits σ pf p_identifier =
    Ok (Some (h, p + sizeof_ChunkHeader), payloadSize_at size_bits d p)
  /\ Forall (fun q => q < p) l1
  /\ Forall (fun q => p < q) l2.
Proof.
  split; [| split].
  - rewrite (chunk_by_table size_bits _ _ _ _ _ _ _ Hloaded Htable).
    rewrite find_first; [reflexivity | | apply Z.eqb_eq; exact Hmatch].
    eapply Forall_weaken; [exact Hbefore |]. simpl. intros q Hq.
    apply Z.eqb_neq. exact Hq.
  - eapply chunk_table_prefix_below. eassumption.
  - eapply chunk_table_tail_above.
    eapply chunk_table_suffix. exact Htable.
Qed.

Lemma twin_file_table : chunk_table 64 twin_file sizeof_FileHeader [12; 34; 58].
Proof.
  apply table_chunk; [vm_compute; congruence | vm_compute; congruence |].
  change (sizeof_FileHeader + chunkSize_at 64 twin_file sizeof_FileHeader) with 34.
  apply table_chunk; [vm_compute; congruence | vm_compute; congruence |].
  change (34 + chunkSize_at 64 twin_file 34) with 58.
  apply table_chunk; [vm_compute; congruence | vm_compute; congruence |].
  apply table_end. vm_compute. intros Hle. apply Hle. reflexivity.
Qed.

Lemma twin_file_loaded :
  loaded fcc_AMAT (sample_store fcc_AMAT twin_file)
    (sample_packfile fcc_AMAT twin_file) 2%positive twin_file.
Proof.
  unfold loaded, valid_header. repeat split; try (vm_compute; congruence).
  exists 0%nat. vm_compute. reflexivity.
Qed.

Lemma raw_lookup_first_match_witness :
  (Forall (fun q => magic_at twin_file q <> fcc_GRMT) [12]
   /\ magic_at twin_file 34 = fcc_GRMT
   /\ magic_at twin_file 58 = fcc_GRMT)
  /\ chunk 64 (sample_store fcc_AMAT twin_file) (sample_packfile fcc_AMAT twin_file)
       fcc_GRMT = Ok (Some (2%positive, 50), 8)
  /\ view_bytes (sample_store fcc_AMAT twin_file) (2%positive, 50) 8
     = Some sample_payload.
Proof.
  assert (Hbefore : Forall (fun q => magic_at twin_file q <> fcc_GRMT) [12]).
  { constructor; [vm_compute; congruence | constructor]. }
  assert (Hmatch : magic_at twin_file 34 = fcc_GRMT) by (vm_compute; reflexivity).
  split; [repeat split; try assumption; vm_compute; reflexivity |].
  split; [| vm_compute; reflexivity].
  destruct (raw_lookup_first_match 64 fcc_AMAT
              (sample_store fcc_AMAT twin_file) (sample_packfile fcc_AMAT twin_file)
              2%positive twin_file fcc_GRMT [12] 34 [58]
              twin_file_loaded twin_file_table Hbefore Hmatch) as (Hc & _).
  rewrite Hc. vm_compute. reflexivity.
Defined.

(** ** Span and payload *)

Lemma mod_2_32_small x : 0 <= x < 2 ^ 32 -> x mod 2 ^ 32 = x.
Proof. intros Hx. apply Z.mod_small. exact Hx. Qed.

(** The length stored for a matching header is exact as long as the
    declared header fits into the span. *)
Lemma payloadSize_exact size_bits (Hwide : 32 < size_bits) d p :
  headerSize_at d p <= chunkSize_at size_bits d p < 2 ^ 32 + headerSize_at d p ->
  payloadSize_at size_bits d p = chunkSize_at size_bits d p - headerSize_at d p.
Proof.
  intros Hfit. rewrite payloadSize_wide by exact Hwide.
  rewrite chunkSize_wide in Hfit |- * by exact Hwide.
  apply mod_2_32_small. lia.
Qed.

(** It wraps around when the declared header is larger than the span. *)
Lemma payloadSize_wraps size_bits (Hwide : 32 < size_bits) d p :
  chunkSize_at size_bits d p < headerSize_at d p ->
  payloadSize_at size_bits d p =
    2 ^ 32 + chunkSize_at size_bits d p - headerSize_at d p.
Proof.
  intros Hshort. rewrite payloadSize_wide by exact Hwide.
  rewrite chunkSize_wide in Hshort |- * by exact Hwide.
  pose proof (u32_at_range d (p + offsetof_nextChunkOffset)) as Hn.
  fold (nextChunkOffset_at d p) in Hn.
  pose proof (u16_at_range d (p + off_ChunkHeader_headerSize)) as Hh.
  fold (headerSize_at d p) in Hh.
  change (2 ^ 32) with 4294967296 in *.
  symmetry. apply (Z.mod_unique _ _ (-1)); lia.
Qed.

(** C6 (as amended). Where [size_t] is wider than 32 bits, every chunk
    header the scan of a loaded container comes to has the span
    [nextChunkOffset + offsetof(nextChunkOffset) + sizeof(nextChunkOffset)],
    that is [nextChunkOffset + 8]. When its magic is the requested
    identifier (and no earlier header has it), the view returned starts
    [sizeof(ChunkHeader) = 16] bytes after the start of the header and its
    length is the span minus the declared [headerSize] taken modulo 2^32,
    the width of [po_size]; that is the span minus [headerSize] itself
    whenever [headerSize] is at most the span (and the difference fits in
    32 bits). *)
Theorem span_and_payload_of_header size_bits TFileType (σ : heap) (pf : PackFile)
    (h : positive) (d : list byte) (p_identifier : Z)
    (l1 : list Z) (p : Z) (l2 : list Z)
    (Hwide : 32 < size_bits)
    (Hloaded : loaded TFileType σ pf h d)
    (Htable : chunk_table size_bits d sizeof_FileHeader (l1 ++ p :: l2)) :
  chunkSize_at size_bits d p =
    nextChunkOffset_at d p + offsetof_nextChunkOffset + sizeof_nextChunkOffset
  /\ chunkSize_at size_bits d p = nextChunkOffset_at d p + 8
  /\ (Forall (fun q => magic_at d q <> p_identifier) l1 ->
      magic_at d p = p_identifier ->
      chunk size_bits σ pf p_identifier =
        Ok (Some (h, p + 16),
            (chunkSize_at size_bits d p - headerSize_at d p) mod 2 ^ 32))
  /\ (headerSize_at d p <= chunkSize_at size_bits d p < 2 ^ 32 + headerSize_at d p ->
      (chunkSize_at size_bits d p - headerSize_at d p) mod 2 ^ 32
        = chunkSize_at size_bits d p - headerSize_at d p).
Proof.
  pose proof (chunkSize_wide size_bits Hwide d p) as Hspan.
  split; [rewrite Hspan; unfold offsetof_nextChunkOffset, sizeof_nextChunkOffset;
          lia |].
  split; [exact Hspan |].
  split.
  - intros Hbefore Hmatch.
    rewrite (chunk_by_table size_bits _ _ _ _ _ _ _ Hloaded Htable).
    rewrite find_first.
    + rewrite payloadSize_wide, Hspan by exact Hwide. reflexivity.
    + eapply Forall_weaken; [exact Hbefore |]. simpl. intros q Hq.
      apply Z.eqb_neq. exact Hq.
    + apply Z.eqb_eq. exact Hmatch.
  - intros Hfit. apply mod_2_32_small. lia.
Qed.

Lemma span_and_payload_of_header_witness :
  (32 < 64 /\ magic_at twin_file 34 = fcc_GRMT
   /\ headerSize_at twin_file 34 = 16 /\ nextChunkOffset_at twin_file 34 = 16)
  /\ chunkSize_at 64 twin_file 34 = 24
  /\ chunk 64 (sample_store fcc_AMAT twin_file) (sample_packfile fcc_AMAT twin_file)
       fcc_GRMT = Ok (Some (2%positive, 34 + 16), 8).
Proof.
  assert (Hwide : 32 < 64) by lia.
  assert (Hbefore : Forall (fun q => magic_at twin_file q <> fcc_GRMT) [12]).
  { constructor; [vm_compute; congruence | constructor]. }
  assert (Hmatch : magic_at twin_file 34 = fcc_GRMT) by (vm_compute; reflexivity).
  split; [repeat split; try assumption; vm_compute; reflexivity |].
  destruct (span_and_payload_of_header 64 fcc_AMAT
              (sample_store fcc_AMAT twin_file) (sample_packfile fcc_AMAT twin_file)
              2%positive twin_file fcc_GRMT [12] 34 [58]
              Hwide twin_file_loaded twin_file_table) as (_ & Hspan & Hc & _).
  split; [rewrite Hspan; vm_compute; reflexivity |].
  rewrite (Hc Hbefore Hmatch). vm_compute. reflexivity.
Defined.

(** The claim as it stands fails where the declared header is larger than
    the span: the only chunk of [short_span_file] has [nextChunkOffset = 0],
    so its span is 8, and [headerSize = 16]. Its magic matches, and the
    length returned is not 8 - 16 but 2^32 - 8. *)
Lemma short_span_payload_length :
  loaded fcc_AMAT (sample_store fcc_AMAT short_span_file)
    (sample_packfile fcc_AMAT short_span_file) 2%positive short_span_file
  /\ chunk_table 64 short_span_file sizeof_FileHeader [12]
  /\ magic_at short_span_file 12 = fcc_GRMT
  /\ nextChunkOffset_at short_span_file 12 + 8 - headerSize_at short_span_file 12 = -8
  /\ chunk 64 (sample_store fcc_AMAT short_span_file)
       (sample_packfile fcc_AMAT short_span_file) fcc_GRMT
     = Ok (Some (2%positive, 12 + 16), 4294967288)
  /\ chunk 32 (sample_store fcc_AMAT short_span_file)
       (sample_packfile fcc_AMAT short_span_file) fcc_GRMT
     = Ok (Some (2%positive, 12 + 16), 4294967288)
  /\ 4294967288 <>
       nextChunkOffset_at short_span_file 12 + 8 - headerSize_at short_span_file 12.
Proof.
  split.
  { unfold loaded, valid_header. repeat split; try (vm_compute; congruence).
    exists 0%nat. vm_compute. reflexivity. }
  split.
  { apply table_chunk; [vm_compute; congruence | vm_compute; congruence |].
    apply table_end. vm_compute. intros Hle. apply Hle. reflexivity. }
  repeat split; vm_compute; congruence.
Qed.

(** ** The scan ends *)

Lemma chunkSize_at_least_8 size_bits (Hwide : 32 < size_bits) d p :
  8 <= chunkSize_at size_bits d p.
Proof.
  rewrite chunkSize_wide by exact Hwide.
  pose proof (u32_at_range d (p + offsetof_nextChunkOffset)) as Hn.
  fold (nextChunkOffset_at d p) in Hn. lia.
Qed.

Lemma chunk_fuel_total size_bits (Hwide : 32 < size_bits) TFileType
    (σ : heap) pf id :
  packfile_inv TFileType σ pf ->
  exists r, forall fuel,
    (forall d, deref σ (m_data pf) = Ok d -> (length d < fuel)%nat) ->
    chunk_fuel size_bits fuel σ pf id = Ok r.
Proof.
  intros Hinv. unfold packfile_inv in Hinv. unfold chunk_fuel, deref.
  destruct (m_data pf) as [h |].
  - destruct Hinv as (b & Hb & Hr & Hbytes). rewrite Hb.
    destruct (m_header pf) as [hdr |]; [| exists (None, 0); reflexivity].
    destruct (scan_total size_bits Hwide (bytes b) id 0 (length (bytes b))
                sizeof_FileHeader) as [[o size] Hs];
      [unfold sizeof_FileHeader; lia | unfold sizeof_FileHeader; lia |].
    exists (match o with Some off => Some (h, off) | None => None end, size).
    intros fuel Hfuel. specialize (Hfuel (bytes b) eq_refl).
    rewrite Hs by (unfold sizeof_FileHeader; lia).
    destruct o; reflexivity.
  - rewrite Hinv. exists (None, 0). reflexivity.
Qed.

Lemma chunk_total size_bits (Hwide : 32 < size_bits) TFileType (σ : heap) pf id :
  packfile_inv TFileType σ pf ->
  exists r, chunk size_bits σ pf id = Ok r
    /\ forall fuel,
         (forall d, deref σ (m_data pf) = Ok d -> (length d < fuel)%nat) ->
         chunk_fuel size_bits fuel σ pf id = Ok r.
Proof.
  intros Hinv.
  destruct (chunk_fuel_total size_bits Hwide TFileType σ pf id Hinv) as [r Hr].
  exists r. split; [| exact Hr].
  unfold chunk. destruct (deref σ (m_data pf)) as [d | f] eqn:Hd.
  - apply Hr. intros d' [= <-]. lia.
  - apply Hr. intros d' Hd'. discriminate.
Qed.

(** C3 (as amended). Where [size_t] is wider than 32 bits the scan of the
    raw lookup ends on every vector: the lookup returns, and with the same
    result for any amount of fuel beyond the size of the vector. It ends
    because the span of a chunk is never zero there: every turn of the loop
    moves at least eight bytes forward. A chunk whose declared [headerSize]
    is larger than its span is not taken for the end of the scan: when its
    magic is the requested identifier it is returned, with the length
    wrapped around to 2^32 + span - headerSize, and otherwise the scan
    steps over it like over any other chunk. *)
Theorem scan_terminates size_bits TFileType (σ : heap) (pf : PackFile)
    (p_identifier : Z)
    (Hwide : 32 < size_bits)
    (Hinv : packfile_inv TFileType σ pf) :
  (exists r,
      chunk size_bits σ pf p_identifier = Ok r
      /\ forall fuel,
           (forall d, deref σ (m_data pf) = Ok d -> (length d < fuel)%nat) ->
           chunk_fuel size_bits fuel σ pf p_identifier = Ok r)
  /\ (forall d p, 8 <= chunkSize_at size_bits d p)
  /\ (forall d p fuel po,
        0 <= p -> p + sizeof_ChunkHeader <= Z.of_nat (length d) ->
        chunkSize_at size_bits d p < headerSize_at d p ->
        scan size_bits (S fuel) d p_identifier p po =
          if magic_at d p =? p_identifier
          then Ok (Some (p + sizeof_ChunkHeader),
                   2 ^ 32 + chunkSize_at size_bits d p - headerSize_at d p)
          else scan size_bits fuel d p_identifier
                 (p + chunkSize_at size_bits d p) po).
Proof.
  split; [eapply chunk_total; eassumption |].
  split; [intros d p; apply chunkSize_at_least_8; exact Hwide |].
  intros d p fuel po Hp Hfit Hshort.
  rewrite scan_step by assumption.
  rewrite payloadSize_wraps by assumption. reflexivity.
Qed.

Lemma overlap_file_loaded :
  loaded fcc_AMAT (sample_store fcc_AMAT overlap_file)
    (sample_packfile fcc_AMAT overlap_file) 2%positive overlap_file.
Proof.
  unfold loaded, valid_header. repeat split; try (vm_compute; congruence).
  exists 0%nat. vm_compute. reflexivity.
Qed.

Lemma scan_terminates_witness :
  32 < 64
  /\ chunkSize_at 64 overlap_file 12 < headerSize_at overlap_file 12
  /\ (exists r,
        chunk 64 (sample_store fcc_AMAT overlap_file)
          (sample_packfile fcc_AMAT overlap_file) fcc_GRMT = Ok r)
  /\ scan 64 3 overlap_file fcc_DX9S 12 0 = Ok (Some (28), 4294945723).
Proof.
  assert (Hwide : 32 < 64) by lia.
  assert (Hshort : chunkSize_at 64 overlap_file 12 < headerSize_at overlap_file 12)
    by (vm_compute; reflexivity).
  destruct (scan_terminates 64 fcc_AMAT (sample_store fcc_AMAT overlap_file)
              (sample_packfile fcc_AMAT overlap_file) fcc_GRMT Hwide
              (loaded_inv _ _ _ _ _ overlap_file_loaded))
    as ((r & Hr & _) & _ & _).
  destruct (scan_terminates 64 fcc_AMAT (sample_store fcc_AMAT overlap_file)
              (sample_packfile fcc_AMAT overlap_file) fcc_DX9S Hwide
              (loaded_inv _ _ _ _ _ overlap_file_loaded))
    as (_ & _ & Hstep).
  split; [exact Hwide |]. split; [exact Hshort |].
  split; [exists r; exact Hr |].
  rewrite (Hstep overlap_file 12 2%nat 0); [vm_compute; reflexivity | lia | | exact Hshort].
  vm_compute. congruence.
Defined.

(** The claim as it stands fails at a chunk whose declared header is larger
    than its span. In [overlap_file] the header at offset 12 has span 8 and
    [headerSize = 21581]. The scan does not end there: looking for "GRMT" it
    steps over that header and finds the chunk behind it; looking for
    "DX9S" it returns that very header's payload pointer with the length
    8 - 21581 wrapped around. *)
Lemma short_span_not_end_of_scan :
  magic_at overlap_file 12 = fcc_DX9S
  /\ chunkSize_at 64 overlap_file 12 = 8
  /\ headerSize_at overlap_file 12 = 21581
  /\ chunk 64 (sample_store fcc_AMAT overlap_file)
       (sample_packfile fcc_AMAT overlap_file) fcc_GRMT
     = Ok (Some (2%positive, 36), 8)
  /\ chunk 64 (sample_store fcc_AMAT overlap_file)
       (sample_packfile fcc_AMAT overlap_file) fcc_DX9S
     = Ok (Some (2%positive, 28), 4294945723)
  /\ chunk 64 (sample_store fcc_AMAT overlap_file)
       (sample_packfile fcc_AMAT overlap_file) fcc_DX9S
     <> Ok (None, 0).
Proof.
  repeat split; vm_compute; congruence.
Qed.

(** With a 32-bit [size_t] the span of a chunk can wrap around to zero,
    and then the loop never moves on: no amount of fuel is enough. *)
Lemma zero_span_loops_32 (fuel : nat) :
  chunkSize_at 32 zero_span_file 12 = 0
  /\ scan 32 fuel zero_span_file fcc_GRMT sizeof_FileHeader 0 = Fault OutOfFuel.
Proof.
  split; [vm_compute; reflexivity |].
  induction fuel as [| fuel IH]; [reflexivity |].
  rewrite scan_step by (vm_compute; congruence).
  replace (magic_at zero_span_file sizeof_FileHeader =? fcc_GRMT) with false
    by (vm_compute; reflexivity).
  replace (sizeof_FileHeader + chunkSize_at 32 zero_span_file sizeof_FileHeader)
    with sizeof_FileHeader by (vm_compute; reflexivity).
  exact IH.
Qed.

(** ** Truncated tables and spans that overrun the vector *)

(** C2 (as amended). Where [size_t] and pointers are wider than 32 bits,
    in a loaded container the scan never reads a chunk
    header that does not lie inside the vector as a whole: the lookup can
    fail in the model only by running out of fuel, never by a read outside
    the vector. A pointer it returns lies [sizeof(ChunkHeader)] bytes after
    a header that fits, so at or before the end of the vector. A table that
    is cut off in the middle of a header ends the scan with "not found",
    and so does a chunk of another identifier whose span reaches the end of
    the vector or beyond. What is not checked is the span of the chunk that
    matches: its length is returned as computed from the header. *)
Theorem scan_reads_in_bounds size_bits TFileType (σ : heap) (pf : PackFile)
    (h : positive) (d : list byte) (p_identifier : Z) (fuel : nat)
    (Hwide : 32 < size_bits)
    (Hloaded : loaded TFileType σ pf h d) :
  (forall f, chunk_fuel size_bits fuel σ pf p_identifier = Fault f -> f = OutOfFuel)
  /\ (forall q size,
        chunk_fuel size_bits fuel σ pf p_identifier = Ok (Some q, size) ->
        q.1 = h
        /\ sizeof_FileHeader + sizeof_ChunkHeader <= q.2 <= Z.of_nat (length d)
        /\ magic_at d (q.2 - sizeof_ChunkHeader) = p_identifier
        /\ size = payloadSize_at size_bits d (q.2 - sizeof_ChunkHeader))
  /\ (forall p po n,
        ~ (p + sizeof_ChunkHeader <= Z.of_nat (length d)) ->
        scan size_bits (S n) d p_identifier p po = Ok (None, po))
  /\ (forall p po n,
        0 <= p -> p + sizeof_ChunkHeader <= Z.of_nat (length d) ->
        magic_at d p <> p_identifier ->
        Z.of_nat (length d) <= p + chunkSize_at size_bits d p ->
        scan size_bits (S (S n)) d p_identifier p po = Ok (None, po)).
Proof.
  split; [| split; [| split]].
  - intros f Hf. rewrite (chunk_fuel_loaded _ _ _ _ _ _ _ _ Hloaded) in Hf.
    destruct (scan size_bits fuel d p_identifier sizeof_FileHeader 0)
      as [[[off |] size] | f'] eqn:Hs; try discriminate.
    injection Hf as <-.
    eapply scan_fault; [| exact Hs]. unfold sizeof_FileHeader. lia.
  - intros [h' off] size Hc.
    rewrite (chunk_fuel_loaded _ _ _ _ _ _ _ _ Hloaded) in Hc.
    destruct (scan size_bits fuel d p_identifier sizeof_FileHeader 0)
      as [[[off' |] size'] | f'] eqn:Hs; try discriminate.
    injection Hc as <- <- <-.
    apply scan_result in Hs; [| unfold sizeof_FileHeader; lia].
    destruct Hs as (q & Hq & Hfit & Hm & -> & ->). simpl.
    replace (q + sizeof_ChunkHeader - sizeof_ChunkHeader) with q by lia.
    repeat split; try assumption; lia.
  - intros p po n Hcut. apply scan_stop. exact Hcut.
  - intros p po n Hp Hfit Hm Hover.
    rewrite scan_step by assumption.
    apply Z.eqb_neq in Hm. rewrite Hm.
    apply scan_stop. unfold sizeof_ChunkHeader. lia.
Qed.

Lemma truncated_file_loaded :
  loaded fcc_AMAT (sample_store fcc_AMAT truncated_file)
    (sample_packfile fcc_AMAT truncated_file) 2%positive truncated_file.
Proof.
  unfold loaded, valid_header. repeat split; try (vm_compute; congruence).
  exists 0%nat. vm_compute. reflexivity.
Qed.

Lemma scan_reads_in_bounds_witness :
  (32 < 64
   /\ Z.of_nat (length truncated_file) = 42 /\ magic_at truncated_file 34 = fcc_GRMT)
  /\ scan 64 1 truncated_file fcc_GRMT 34 0 = Ok (None, 0)
  /\ chunk_fuel 64 3 (sample_store fcc_AMAT truncated_file)
       (sample_packfile fcc_AMAT truncated_file) fcc_GRMT = Ok (None, 0).
Proof.
  destruct (scan_reads_in_bounds 64 fcc_AMAT (sample_store fcc_AMAT truncated_file)
              (sample_packfile fcc_AMAT truncated_file) 2%positive truncated_file
              fcc_GRMT 3 ltac:(lia) truncated_file_loaded) as (_ & _ & Hcut & _).
  split; [repeat split; vm_compute; reflexivity |].
  split; [apply Hcut; vm_compute; intros Hle; apply Hle; reflexivity |].
  vm_compute. reflexivity.
Defined.

(** The claim as it stands fails for a matching chunk whose span runs past
    the end of the vector. The only chunk of [overrun_file] starts at
    offset 12 of a vector of 36 bytes and declares a span of 108 bytes. The
    lookup returns the pointer at offset 28 with length 92: a view of which
    only the first eight bytes are inside the vector. *)
Lemma overrun_view_past_end :
  Z.of_nat (length overrun_file) = 36
  /\ magic_at overrun_file 12 = fcc_GRMT
  /\ chunkSize_at 64 overrun_file 12 = 108
  /\ chunk 64 (sample_store fcc_AMAT overrun_file)
       (sample_packfile fcc_AMAT overrun_file) fcc_GRMT
     = Ok (Some (2%positive, 28), 92)
  /\ Z.of_nat (length overrun_file) < 28 + 92
  /\ view_bytes (sample_store fcc_AMAT overrun_file) (2%positive, 28) 92 = None.
Proof.
  repeat split; vm_compute; congruence.
Qed.

(** ** The scenario of the specification *)

Lemma byte_val_of x : byte_val (byte_of x) = x mod 256.
Proof.
  unfold byte_val, byte_of.
  pose proof (Z.mod_pos_bound x 256 eq_refl) as Hm.
  destruct (Byte.of_N (Z.to_N (x mod 256))) as [b |] eqn:Hb.
  - apply Byte.to_of_N in Hb. simpl. rewrite Hb. apply Z2N.id. lia.
  - apply Byte.of_N_None_iff in Hb. lia.
Qed.

Lemma u16_bytes x :
  0 <= x < 65536 ->
  byte_val (byte_of x) + 256 * byte_val (byte_of (x / 256)) = x.
Proof.
  intros Hx. rewrite !byte_val_of.
  rewrite (Z.mod_small (x / 256)) by (split; [apply Z.div_pos; lia |
                                      apply Z.div_lt_upper_bound; lia]).
  pose proof (Z.div_mod x 256). lia.
Qed.

Lemma u32_bytes x :
  0 <= x < 2 ^ 32 ->
  byte_val (byte_of x) + 256 * byte_val (byte_of (x / 256))
  + 65536 * (byte_val (byte_of (x / 65536))
             + 256 * byte_val (byte_of (x / 65536 / 256))) = x.
Proof.
  intros Hx. change (2 ^ 32) with (65536 * 65536) in Hx.
  rewrite (u16_bytes (x / 65536))
    by (split; [apply Z.div_pos; lia | apply Z.div_lt_upper_bound; lia]).
  rewrite !byte_val_of.
  pose proof (Z.div_mod x 65536 ltac:(lia)) as H1.
  pose proof (Z.mod_pos_bound x 65536 eq_refl) as H2.
  assert (E : x mod 256 + 256 * ((x / 256) mod 256) = x mod 65536).
  { change 65536 with (256 * 256). rewrite Z.rem_mul_r by lia. reflexivity. }
  lia.
Qed.

Lemma to_size_t_small32 size_bits x :
  32 <= size_bits -> 0 <= x < 2 ^ 32 -> to_size_t size_bits x = x.
Proof.
  intros Hs Hx. unfold to_size_t. apply Z.mod_small.
  pose proof (Z.pow_le_mono_r 2 32 size_bits ltac:(lia) Hs). lia.
Qed.

Arguments byte_of : simpl never.
Arguments byte_val : simpl never.

Lemma scenario_file_fields X Y payload :
  0 <= X < 2 ^ 32 -> 0 <= Y < 2 ^ 32 ->
  scenario_file X Y payload !! 0%nat = Some "P"%byte
  /\ scenario_file X Y payload !! 1%nat = Some "F"%byte
  /\ u32_at (scenario_file X Y payload) off_FileHeader_contentType = X
  /\ magic_at (scenario_file X Y payload) 12 = Y
  /\ nextChunkOffset_at (scenario_file X Y payload) 12 = 8
  /\ headerSize_at (scenario_file X Y payload) 12 = 12
  /\ length (scenario_file X Y payload) = (28 + length payload)%nat
  /\ drop 28 (scenario_file X Y payload) = payload.
Proof.
  intros HX HY.
  split; [reflexivity |]. split; [reflexivity |].
  split.
  { unfold u32_at, u16_at, u8_at, off_FileHeader_contentType. simpl.
    rewrite <- (u32_bytes X HX) at 5. lia. }
  split.
  { unfold magic_at, u32_at, u16_at, u8_at, off_ChunkHeader_magic. simpl.
    rewrite <- (u32_bytes Y HY) at 5. lia. }
  split; [vm_compute; reflexivity |].
  split; [vm_compute; reflexivity |].
  split; reflexivity.
Qed.

(** C4 (as amended). On the buffer of the scenario (file header "PF", 0, 0,
    0x0010, content type X; one chunk header with magic Y,
    [nextChunkOffset = 8], version 1, [headerSize = 12],
    [descriptorOffset = 0]; eight bytes of payload), [assign] succeeds, the
    raw lookup for Y returns the pointer to the first payload byte with
    length 4, the span 8 + 8 minus the declared header size 12, so the
    view is the first four bytes of the payload; the raw lookup for any
    other identifier returns the null pointer and size zero. *)
Theorem scenario_lookup size_bits (X Y Z : Z) (payload : list byte)
    (σ : heap) (this : PackFile)
    (Hsize : 32 <= size_bits)
    (HX : 0 <= X < 2 ^ 32)
    (HY : 0 <= Y < 2 ^ 32)
    (Hpayload : length payload = 8%nat)
    (Hinv : packfile_inv X σ this)
    (HZ : Z <> Y) :
  exists σ' this' h,
    assign X σ this (Some (scenario_file X Y payload)) 36 = Ok (σ', this', true)
    /\ chunk size_bits σ' this' Y = Ok (Some (h, 28), 4)
    /\ view_bytes σ' (h, 28) 4 = Some (take 4 payload)
    /\ chunk size_bits σ' this' Z = Ok (None, 0).
Proof.
  destruct (scenario_file_fields X Y payload HX HY)
    as (HP & HF & HT & Hmagic & Hnco & Hhs & Hlen & Hdrop).
  rewrite Hpayload in Hlen. change (28 + 8)%nat with 36%nat in Hlen.
  set (d := scenario_file X Y payload) in *.
  assert (Hsz : sizeof_FileHeader <= 36 <= Z.of_nat (length d))
    by (unfold sizeof_FileHeader; lia).
  pose proof (assign_accepts X σ this d 36 Hsz HP HF HT) as Ha.
  pose proof (assign_loaded X σ this d 36 Hinv Hsz HP HF HT) as Hl.
  assert (Htake : take (Z.to_nat 36) d = d) by (apply take_ge; lia).
  rewrite Htake in Ha, Hl. cbv zeta in Hl.
  destruct (alloc σ d) as [σ1 h]. simpl in Hl.
  exists (release_opt (m_data this) σ1), (MkPackFile (Some h) (Some (h, 0))), h.
  split; [exact Ha |].
  assert (Hspan : chunkSize_at size_bits d 12 = 16).
  { unfold chunkSize_at. rewrite Hnco.
    unfold offsetof_nextChunkOffset, sizeof_nextChunkOffset.
    rewrite (to_size_t_small32 size_bits (8 + 4)) by (try assumption; lia).
    apply to_size_t_small32; [assumption | lia]. }
  assert (Hps : payloadSize_at size_bits d 12 = 4).
  { unfold payloadSize_at. rewrite Hspan, Hhs.
    rewrite to_size_t_small32 by (try assumption; lia). reflexivity. }
  assert (Hfit : 12 + sizeof_ChunkHeader <= Z.of_nat (length d))
    by (unfold sizeof_ChunkHeader; lia).
  split; [| split].
  - rewrite (chunk_loaded _ _ _ _ _ _ _ Hl), (chunk_fuel_loaded _ _ _ _ _ _ _ _ Hl).
    change sizeof_FileHeader with 12.
    rewrite scan_step by (assumption || lia).
    rewrite Hmagic, Z.eqb_refl, Hps. reflexivity.
  - destruct Hl as (_ & _ & (n & Hb) & _).
    unfold view_bytes. cbn [fst snd]. rewrite Hb. cbn [bytes].
    destruct (decide (0 <= 28 /\ 0 <= 4 /\ 28 + 4 <= Z.of_nat (length d)));
      [| lia].
    change (Z.to_nat 28) with 28%nat. rewrite Hdrop. reflexivity.
  - rewrite (chunk_loaded _ _ _ _ _ _ _ Hl), (chunk_fuel_loaded _ _ _ _ _ _ _ _ Hl).
    change sizeof_FileHeader with 12.
    rewrite Hlen. change (S 36) with (S (S 35)).
    rewrite scan_step by (assumption || lia).
    rewrite Hmagic.
    assert (HYZ : (Y =? Z) = false) by (apply Z.eqb_neq; congruence).
    rewrite HYZ, Hspan.
    rewrite scan_stop; [reflexivity |]. unfold sizeof_ChunkHeader. lia.
Qed.

Lemma scenario_lookup_witness :
  (32 <= 64 /\ 0 <= fcc_AMAT < 2 ^ 32 /\ 0 <= fcc_GRMT < 2 ^ 32
   /\ length sample_payload = 8%nat /\ fcc_DX9S <> fcc_GRMT)
  /\ exists σ' this' h,
       assign fcc_AMAT (PackFile_default ∅).1 (PackFile_default ∅).2
         (Some (scenario_file fcc_AMAT fcc_GRMT sample_payload)) 36
       = Ok (σ', this', true)
       /\ chunk 64 σ' this' fcc_GRMT = Ok (Some (h, 28), 4)
       /\ view_bytes σ' (h, 28) 4 = Some (take 4 sample_payload)
       /\ chunk 64 σ' this' fcc_DX9S = Ok (None, 0).
Proof.
  assert (Hsize : 32 <= 64) by lia.
  assert (HX : 0 <= fcc_AMAT < 2 ^ 32) by (vm_compute; split; congruence).
  assert (HY : 0 <= fcc_GRMT < 2 ^ 32) by (vm_compute; split; congruence).
  assert (Hp : length sample_payload = 8%nat) by reflexivity.
  assert (HZ : fcc_DX9S <> fcc_GRMT) by (vm_compute; congruence).
  split; [repeat split; try assumption; try apply HX; apply HY |].
  apply (scenario_lookup 64 fcc_AMAT fcc_GRMT fcc_DX9S sample_payload
           (PackFile_default ∅).1 (PackFile_default ∅).2 Hsize HX HY Hp
           (default_inv fcc_AMAT ∅) HZ).
Defined.

(** The claim as it stands fails on its own buffer: the lookup for Y does
    not return the eight payload bytes but a view of length four. *)
Lemma scenario_returns_four_bytes :
  let d := scenario_file fcc_AMAT fcc_GRMT sample_payload in
  length sample_payload = 8%nat
  /\ chunk 64 (sample_store fcc_AMAT d) (sample_packfile fcc_AMAT d) fcc_GRMT
     = Ok (Some (2%positive, 28), 4)
  /\ chunk 32 (sample_store fcc_AMAT d) (sample_packfile fcc_AMAT d) fcc_GRMT
     = Ok (Some (2%positive, 28), 4)
  /\ 4 <> 8
  /\ view_bytes (sample_store fcc_AMAT d) (2%positive, 28) 4
     = Some ["a"; "b"; "c"; "d"]%byte
  /\ view_bytes (sample_store fcc_AMAT d) (2%positive, 28) 4 <> Some sample_payload.
Proof.
  intros d. repeat split; vm_compute; congruence.
Qed.

(** Accepted data, as one statement about [assign]. *)
Lemma assign_valid_data_loads_aux TFileType (σ : heap) this mem p_size :
  packfile_inv TFileType σ this ->
  sizeof_FileHeader <= p_size <= Z.of_nat (length mem) ->
  mem !! 0%nat = Some "P"%byte ->
  mem !! 1%nat = Some "F"%byte ->
  u32_at mem off_FileHeader_contentType = TFileType ->
  exists σ' this' h,
    assign TFileType σ this (Some mem) p_size = Ok (σ', this', true)
    /\ loaded TFileType σ' this' h (take (Z.to_nat p_size) mem).
Proof.
  intros Hinv Hsize HP HF Htype.
  pose proof (assign_accepts TFileType σ this mem p_size Hsize HP HF Htype) as Ha.
  pose proof (assign_loaded TFileType σ this mem p_size Hinv Hsize HP HF Htype) as Hl.
  cbv zeta in Hl.
  destruct (alloc σ (take (Z.to_nat p_size) mem)) as [σ1 h]. simpl in *.
  eauto.
Qed.

(** * Further properties of the container *)

(** ** What [assign] takes in *)

(** X1. Data of at least [sizeof(FileHeader)] bytes that starts with "PF"
    and carries the instantiation's content type is taken in: [assign]
    returns [true], the container holds a new vector with exactly the first
    [p_size] bytes of the data and a header view at its first byte, and
    [type()] is [TFileType]. The vector is a new one: no vector of the
    store before the call is reused. *)
Theorem assign_valid_data_loads TFileType (σ : heap) (this : PackFile)
    (mem : list byte) (p_size : Z)
    (Hinv : packfile_inv TFileType σ this)
    (Hsize : sizeof_FileHeader <= p_size <= Z.of_nat (length mem))
    (HP : mem !! 0%nat = Some "P"%byte)
    (HF : mem !! 1%nat = Some "F"%byte)
    (Htype : u32_at mem off_FileHeader_contentType = TFileType) :
  exists σ' this' h,
    assign TFileType σ this (Some mem) p_size = Ok (σ', this', true)
    /\ loaded TFileType σ' this' h (take (Z.to_nat p_size) mem)
    /\ type_ TFileType this' = TFileType
    /\ σ !! h = None.
Proof.
  pose proof (assign_accepts TFileType σ this mem p_size Hsize HP HF Htype) as Ha.
  pose proof (assign_loaded TFileType σ this mem p_size Hinv Hsize HP HF Htype) as Hl.
  pose proof (alloc_fresh σ (take (Z.to_nat p_size) mem)) as Hfresh.
  cbv zeta in Hl.
  destruct (alloc σ (take (Z.to_nat p_size) mem)) as [σ1 h]. simpl in *.
  exists (release_opt (m_data this) σ1), (MkPackFile (Some h) (Some (h, 0))), h.
  split; [exact Ha |]. split; [exact Hl |]. split; [reflexivity | exact Hfresh].
Qed.

Lemma assign_valid_data_loads_witness :
  let data := encode_file fcc_AMAT [encode_chunk fcc_GRMT 1 sample_payload] in
  exists σ' this' h,
    assign fcc_AMAT (PackFile_default ∅).1 (PackFile_default ∅).2 (Some data) 30
      = Ok (σ', this', true)
    /\ loaded fcc_AMAT σ' this' h (take 30 data)
    /\ type_ fcc_AMAT this' = fcc_AMAT
    /\ (PackFile_default ∅).1 !! h = None.
Proof.
  intros data.
  apply (assign_valid_data_loads fcc_AMAT (PackFile_default ∅).1
           (PackFile_default ∅).2 data 30 (default_inv fcc_AMAT ∅)).
  - vm_compute. split; congruence.
  - reflexivity.
  - reflexivity.
  - vm_compute. reflexivity.
Defined.

(** X2. The value [assign] returns tells what it did. [true] is returned
    only for a non-null pointer to at least twelve bytes that start with
    "PF" and carry the content type of the instantiation, and then the
    container holds a new vector; [false] means that neither the container
    nor the store was touched. *)
Theorem assign_outcome TFileType (σ : heap) (this : PackFile)
    (p_data : option (list byte)) (p_size : Z)
    (σ' : heap) (this' : PackFile) (ok : bool)
    (Hassign : assign TFileType σ this p_data p_size = Ok (σ', this', ok)) :
  if ok
  then exists mem,
         p_data = Some mem
         /\ sizeof_FileHeader <= p_size <= Z.of_nat (length mem)
         /\ mem !! 0%nat = Some "P"%byte
         /\ mem !! 1%nat = Some "F"%byte
         /\ u32_at mem off_FileHeader_contentType = TFileType
         /\ is_Some (m_data this')
         /\ m_header this' = data_ptr (m_data this')
  else σ' = σ /\ this' = this.
Proof.
  apply assign_cases in Hassign
    as [[= -> -> ->] | (mem & -> & Hsz & HP & HF & HT & [= -> -> ->])].
  - split; reflexivity.
  - exists mem. repeat split; try assumption; try apply Hsz.
    simpl. eauto.
Qed.

Lemma assign_outcome_witness :
  let data := encode_file fcc_GRMT [encode_chunk fcc_GRMT 1 sample_payload] in
  assign fcc_AMAT (PackFile_default ∅).1 (PackFile_default ∅).2 (Some data) 36
    = Ok ((PackFile_default ∅).1, (PackFile_default ∅).2, false)
  /\ (PackFile_default ∅).1 = (PackFile_default ∅).1
  /\ (PackFile_default ∅).2 = (PackFile_default ∅).2.
Proof.
  intros data.
  assert (Ha : assign fcc_AMAT (PackFile_default ∅).1 (PackFile_default ∅).2
                 (Some data) 36
               = Ok ((PackFile_default ∅).1, (PackFile_default ∅).2, false))
    by (vm_compute; reflexivity).
  split; [exact Ha |].
  exact (assign_outcome fcc_AMAT _ _ _ _ _ _ false Ha).
Defined.

(** ** [type()] *)

(** X3. For a container that satisfies the invariant, [type()] tells
    whether data is loaded: it is [TFileType] when the vector is not empty
    and zero when the vector is empty or [m_data] is null. *)
Theorem type_reports_data TFileType (σ : heap) (pf : PackFile)
    (Hinv : packfile_inv TFileType σ pf) :
  type_ TFileType pf =
    match deref σ (m_data pf) with
    | Ok (_ :: _) => TFileType
    | _ => 0
    end.
Proof.
  unfold packfile_inv in Hinv. unfold type_, deref.
  destruct (m_data pf) as [h |].
  - destruct Hinv as (b & Hb & _ & Hbytes). rewrite Hb.
    destruct (bytes b) as [| b0 d'].
    + rewrite Hbytes. reflexivity.
    + destruct Hbytes as [-> _]. reflexivity.
  - rewrite Hinv. reflexivity.
Qed.

Lemma type_reports_data_witness :
  type_ fcc_AMAT (sample_packfile fcc_AMAT twin_file) = fcc_AMAT
  /\ type_ fcc_AMAT (PackFile_default ∅).2 = 0.
Proof.
  split.
  - rewrite (type_reports_data fcc_AMAT (sample_store fcc_AMAT twin_file)
               (sample_packfile fcc_AMAT twin_file)
               (loaded_inv _ _ _ _ _ twin_file_loaded)).
    vm_compute. reflexivity.
  - rewrite (type_reports_data fcc_AMAT (PackFile_default ∅).1
               (PackFile_default ∅).2 (default_inv fcc_AMAT ∅)).
    vm_compute. reflexivity.
Defined.

(** ** [load] *)

(** X4. Loading a file of less than 2^32 bytes that starts with a valid
    file header succeeds, and the container then holds the whole content of
    the file. *)
Theorem load_valid_file TFileType fs (σ : heap) (this : PackFile)
    (p_filename : string) (content : list byte)
    (Hinv : packfile_inv TFileType σ this)
    (Hfile : fs p_filename = Some content)
    (Hsmall : Z.of_nat (length content) < 2 ^ 32)
    (Hvalid : valid_header TFileType content) :
  exists σ' this' h,
    load TFileType fs σ this p_filename = Ok (σ', this', true)
    /\ loaded TFileType σ' this' h content.
Proof.
  destruct Hvalid as (Hlen & HP & HF & HT).
  assert (Hsize : to_uint32 (Z.of_nat (length content)) = Z.of_nat (length content)).
  { unfold to_uint32. apply Z.mod_small. lia. }
  assert (Htake : take (Z.to_nat (Z.of_nat (length content))) content = content).
  { apply take_ge. lia. }
  unfold load. rewrite Hfile, Hsize, Htake, Hsize.
  destruct (assign_valid_data_loads_aux TFileType σ this content
              (Z.of_nat (length content)) Hinv) as (σ' & this' & h & Ha & Hl);
    try assumption; [lia |].
  rewrite Htake in Hl. eauto.
Qed.

Lemma load_valid_file_witness :
  exists σ' this' h,
    load fcc_AMAT (sample_fs "twin.amat" twin_file) (PackFile_default ∅).1
      (PackFile_default ∅).2 "twin.amat" = Ok (σ', this', true)
    /\ loaded fcc_AMAT σ' this' h twin_file.
Proof.
  apply (load_valid_file fcc_AMAT (sample_fs "twin.amat" twin_file)
           (PackFile_default ∅).1 (PackFile_default ∅).2 "twin.amat" twin_file
           (default_inv fcc_AMAT ∅)).
  - reflexivity.
  - vm_compute. reflexivity.
  - unfold valid_header. repeat split; vm_compute; congruence.
Defined.

(** X5. When [load] returns [false], because the file cannot be opened or
    because [assign] turned its content down, neither the container nor
    the store has changed. *)
Theorem load_false_keeps_state TFileType fs (σ : heap) (this : PackFile)
    (p_filename : string) (σ' : heap) (this' : PackFile)
    (Hload : load TFileType fs σ this p_filename = Ok (σ', this', false)) :
  σ' = σ /\ this' = this.
Proof.
  unfold load in Hload. destruct (fs p_filename) as [content |].
  - apply assign_cases in Hload as [[= -> ->] | (mem & _ & _ & _ & _ & _ & Hr)].
    + split; reflexivity.
    + discriminate.
  - injection Hload as <- <-. split; reflexivity.
Qed.

Lemma load_false_keeps_state_witness :
  load fcc_AMAT (sample_fs "twin.amat" twin_file)
    (sample_store fcc_AMAT overlap_file) (sample_packfile fcc_AMAT overlap_file)
    "missing.amat"
  = Ok (sample_store fcc_AMAT overlap_file, sample_packfile fcc_AMAT overlap_file,
        false)
  /\ sample_store fcc_AMAT overlap_file = sample_store fcc_AMAT overlap_file
  /\ sample_packfile fcc_AMAT overlap_file = sample_packfile fcc_AMAT overlap_file.
Proof.
  assert (Hl : load fcc_AMAT (sample_fs "twin.amat" twin_file)
                 (sample_store fcc_AMAT overlap_file)
                 (sample_packfile fcc_AMAT overlap_file) "missing.amat"
               = Ok (sample_store fcc_AMAT overlap_file,
                     sample_packfile fcc_AMAT overlap_file, false))
    by reflexivity.
  split; [exact Hl |].
  exact (load_false_keeps_state fcc_AMAT _ _ _ _ _ _ Hl).
Defined.

(** ** The loading constructors *)

(** X6. A container made by [PackFile(p_data, p_size)] or
    [PackFile(p_filename)] whose data was turned down has no header view and
    a null [m_data]: the store is untouched, [type()] is zero and the raw
    lookup finds nothing, but copy-constructing from it, or assigning it to
    another container, dereferences the null shared pointer in
    [m_data->size()]. *)
Theorem rejected_constructor_leaves_null size_bits TFileType fs (σ : heap)
    (p_data : option (list byte)) (p_size : Z) (p_filename : string)
    (σ' : heap) (pf : PackFile)
    (Hctor : PackFile_from_data TFileType σ p_data p_size = Ok (σ', pf)
             \/ PackFile_from_file TFileType fs σ p_filename = Ok (σ', pf))
    (Hrejected : m_header pf = None) :
  σ' = σ
  /\ m_data pf = None
  /\ type_ TFileType pf = 0
  /\ (forall id, chunk size_bits σ' pf id = Ok (None, 0))
  /\ PackFile_copy σ' pf = Fault NullDeref
  /\ (forall this, PackFile_copy_assign σ' this pf = Fault NullDeref).
Proof.
  assert (Ha : exists q_data q_size ok,
             assign TFileType σ (MkPackFile None None) q_data q_size
             = Ok (σ', pf, ok)).
  { destruct Hctor as [Hc | Hc].
    - unfold PackFile_from_data in Hc.
      destruct (assign TFileType σ (MkPackFile None None) p_data p_size)
        as [[[σ1 pf1] ok] |] eqn:Ha; [| discriminate].
      cbn in Hc. injection Hc as <- <-. eauto.
    - unfold PackFile_from_file, load in Hc.
      destruct (fs p_filename) as [content |].
      + match type of Hc with
        | context [assign ?T ?s ?t ?q ?n] =>
            destruct (assign T s t q n) as [[[σ1 pf1] ok] |] eqn:Ha;
              [| discriminate]
        end.
        cbn in Hc. injection Hc as <- <-. eauto.
      + cbn in Hc. injection Hc as <- <-.
        exists None, 0, false. reflexivity. }
  destruct Ha as (q_data & q_size & ok & Ha).
  apply assign_cases in Ha
    as [[= -> -> ->] | (mem & _ & _ & _ & _ & _ & [= -> -> ->])];
    [| discriminate].
  repeat split; reflexivity.
Qed.

Lemma rejected_constructor_leaves_null_witness :
  PackFile_from_data fcc_AMAT ∅ (Some short_span_file) 4
    = Ok (∅, MkPackFile None None)
  /\ PackFile_copy ∅ (MkPackFile None None) = Fault NullDeref.
Proof.
  assert (Hc : PackFile_from_data fcc_AMAT ∅ (Some short_span_file) 4
               = Ok (∅, MkPackFile None None)) by reflexivity.
  split; [exact Hc |].
  destruct (rejected_constructor_leaves_null 64 fcc_AMAT (fun _ => None) ∅
              (Some short_span_file) 4 ""%string ∅ (MkPackFile None None)
              (or_introl Hc) eq_refl) as (_ & _ & _ & _ & Hcopy & _).
  exact Hcopy.
Defined.

(** ** Copies *)

(** X7. Copying a loaded container, with the copy constructor or by copy
    assignment to a container that holds another vector or none, gives a
    container that shares the vector: both are loaded with the same vector
    and the same bytes, the use count goes up by one, and every raw lookup
    in the copy returns the same pointer and size as in the original. *)
Theorem copy_shares_vector size_bits TFileType (σ : heap) (A this : PackFile)
    (h : positive) (d : list byte)
    (Hloaded : loaded TFileType σ A h d)
    (Hthis : m_data this <> Some h) :
  exists σ1 σ2 B,
    PackFile_copy σ A = Ok (σ1, B)
    /\ PackFile_copy_assign σ this A = Ok (σ2, B)
    /\ B = MkPackFile (Some h) (Some (h, 0))
    /\ loaded TFileType σ1 B h d /\ loaded TFileType σ1 A h d
    /\ loaded TFileType σ2 B h d /\ loaded TFileType σ2 A h d
    /\ (exists n, σ !! h = Some (Block (S n) d)
                  /\ σ1 !! h = Some (Block (S (S n)) d)
                  /\ σ2 !! h = Some (Block (S (S n)) d))
    /\ (forall fuel id,
          chunk_fuel size_bits fuel σ1 B id = chunk_fuel size_bits fuel σ A id
          /\ chunk_fuel size_bits fuel σ2 B id = chunk_fuel size_bits fuel σ A id).
Proof.
  assert (Hl0 := Hloaded). destruct Hloaded as (Hd & Hh & (n & Hb) & Hv).
  assert (Hlen : (length d =? 0)%nat = false).
  { destruct Hv as (Hlen & _). unfold sizeof_FileHeader in Hlen.
    apply Nat.eqb_neq. lia. }
  pose proof (acquire_lookup _ _ _ Hb) as Hb1. simpl in Hb1.
  assert (Hb2 : release_opt (m_data this) (acquire h σ) !! h
                = Some (Block (S (S n)) d)).
  { destruct (m_data this) as [h0 |]; cbn [release_opt]; [| exact Hb1].
    rewrite release_lookup_ne by congruence. exact Hb1. }
  exists (acquire h σ), (release_opt (m_data this) (acquire h σ)),
    (MkPackFile (Some h) (Some (h, 0))).
  assert (HB1 : loaded TFileType (acquire h σ)
                  (MkPackFile (Some h) (Some (h, 0))) h d).
  { unfold loaded. simpl. repeat split; eauto; apply Hv. }
  assert (HA1 : loaded TFileType (acquire h σ) A h d).
  { unfold loaded. repeat split; eauto; apply Hv. }
  assert (HB2 : loaded TFileType (release_opt (m_data this) (acquire h σ))
                  (MkPackFile (Some h) (Some (h, 0))) h d).
  { unfold loaded. simpl. repeat split; eauto; apply Hv. }
  assert (HA2 : loaded TFileType (release_opt (m_data this) (acquire h σ)) A h d).
  { unfold loaded. repeat split; eauto; apply Hv. }
  split.
  { unfold PackFile_copy. rewrite Hd. cbn [share deref]. rewrite Hb1.
    cbn [mbind res_bind mret res_ret bytes data_ptr]. rewrite Hlen. reflexivity. }
  split.
  { unfold PackFile_copy_assign. rewrite Hd. cbn [share deref]. rewrite Hb2.
    cbn [mbind res_bind mret res_ret bytes data_ptr]. rewrite Hlen. reflexivity. }
  split; [reflexivity |].
  split; [exact HB1 |]. split; [exact HA1 |].
  split; [exact HB2 |]. split; [exact HA2 |].
  split; [exists n; auto |].
  intros fuel id.
  rewrite (chunk_fuel_loaded _ _ _ _ _ _ _ _ HB1).
  rewrite (chunk_fuel_loaded _ _ _ _ _ _ _ _ HB2).
  rewrite (chunk_fuel_loaded _ _ _ _ _ _ _ _ Hl0). split; reflexivity.
Qed.

Lemma copy_shares_vector_witness :
  exists σ1 B,
    PackFile_copy (sample_store fcc_AMAT twin_file)
      (sample_packfile fcc_AMAT twin_file) = Ok (σ1, B)
    /\ chunk_fuel 64 9 σ1 B fcc_GRMT
       = chunk_fuel 64 9 (sample_store fcc_AMAT twin_file)
           (sample_packfile fcc_AMAT twin_file) fcc_GRMT.
Proof.
  destruct (copy_shares_vector 64 fcc_AMAT (sample_store fcc_AMAT twin_file)
              (sample_packfile fcc_AMAT twin_file) (MkPackFile None None)
              2%positive twin_file twin_file_loaded)
    as (σ1 & σ2 & B & Hc & _ & _ & _ & _ & _ & _ & _ & Hlook).
  - discriminate.
  - exists σ1, B. split; [exact Hc | apply Hlook].
Defined.

(** Taking a share and giving it back leaves the store as it was. *)
Lemma release_acquire (σ : heap) h b :
  σ !! h = Some b -> (1 <= refs b)%nat -> release h (acquire h σ) = σ.
Proof.
  intros Hb Hr. unfold release. rewrite (acquire_lookup _ _ _ Hb). simpl.
  destruct (refs b) as [| r] eqn:Er; [lia |]. simpl.
  unfold acquire. rewrite insert_alter_eq.
  apply insert_id. rewrite Hb. destruct b as [r0 d0]. simpl in *. congruence.
Qed.

(** X8. Self-assignment is harmless: for a container that satisfies the
    invariant and has a vector, [A = A] leaves the container and the store
    exactly as they were. *)
Theorem self_assignment_changes_nothing TFileType (σ : heap) (A : PackFile)
    (Hinv : packfile_inv TFileType σ A)
    (Hdata : m_data A <> None) :
  PackFile_copy_assign σ A A = Ok (σ, A).
Proof.
  unfold packfile_inv in Hinv. unfold PackFile_copy_assign.
  destruct A as [[h |] hdr]; [| simpl in Hdata; congruence]. simpl in *.
  destruct Hinv as (b & Hb & Hr & Hbytes).
  rewrite (release_acquire _ _ _ Hb Hr), Hb.
  cbn [mbind res_bind mret res_ret].
  destruct (bytes b) as [| b0 d'].
  - simpl. rewrite Hbytes. reflexivity.
  - destruct Hbytes as [-> _]. reflexivity.
Qed.

Lemma self_assignment_changes_nothing_witness :
  PackFile_copy_assign (sample_store fcc_AMAT twin_file)
    (sample_packfile fcc_AMAT twin_file) (sample_packfile fcc_AMAT twin_file)
  = Ok (sample_store fcc_AMAT twin_file, sample_packfile fcc_AMAT twin_file).
Proof.
  apply (self_assignment_changes_nothing fcc_AMAT).
  - exact (loaded_inv _ _ _ _ _ twin_file_loaded).
  - discriminate.
Defined.

(** ** Vectors come and go with their owners *)

(** X9. Nothing is left behind: destroying a default-constructed container
    gives back the store from before its construction, and destroying a
    copy gives back the store from before the copy. *)
Theorem construct_destroy_restores_store TFileType (σ : heap) :
  PackFile_destroy (PackFile_default σ).1 (PackFile_default σ).2 = σ
  /\ (forall A σ1 B,
        packfile_inv TFileType σ A ->
        PackFile_copy σ A = Ok (σ1, B) ->
        PackFile_destroy σ1 B = σ).
Proof.
  split.
  - pose proof (alloc_fresh σ []) as Hfresh.
    unfold PackFile_destroy, PackFile_default, alloc in *. simpl in *.
    unfold release. rewrite lookup_insert_eq. simpl.
    rewrite delete_insert_eq. apply delete_id. exact Hfresh.
  - intros A σ1 B Hinv Hc. unfold PackFile_copy in Hc.
    unfold packfile_inv in Hinv.
    destruct (m_data A) as [h |] eqn:Hd; [| discriminate].
    destruct Hinv as (b & Hb & Hr & _).
    cbn [share deref] in Hc. rewrite (acquire_lookup _ _ _ Hb) in Hc.
    cbn [mbind res_bind mret res_ret] in Hc. injection Hc as <- <-.
    unfold PackFile_destroy. cbn [m_data release_opt].
    apply (release_acquire _ _ _ Hb Hr).
Qed.

Lemma construct_destroy_restores_store_witness :
  PackFile_destroy (sample_copy (sample_store fcc_AMAT twin_file)
                      (sample_packfile fcc_AMAT twin_file)).1
    (sample_copy (sample_store fcc_AMAT twin_file)
       (sample_packfile fcc_AMAT twin_file)).2
  = sample_store fcc_AMAT twin_file.
Proof.
  apply (proj2 (construct_destroy_restores_store fcc_AMAT
                  (sample_store fcc_AMAT twin_file))
           (sample_packfile fcc_AMAT twin_file)).
  - exact (loaded_inv _ _ _ _ _ twin_file_loaded).
  - vm_compute. reflexivity.
Defined.

(** X10. A successful [assign] on the only owner of a vector destroys that
    vector: it is no longer in the store, and the container holds another
    one. *)
Theorem reassign_frees_sole_owned_vector TFileType (σ : heap) (A : PackFile)
    (h : positive) (d : list byte)
    (p_data : option (list byte)) (p_size : Z) (σ' : heap) (A' : PackFile)
    (Hholds : m_data A = Some h)
    (Hsole : σ !! h = Some (Block 1 d))
    (Hassign : assign TFileType σ A p_data p_size = Ok (σ', A', true)) :
  σ' !! h = None /\ m_data A' <> Some h /\ is_Some (m_data A').
Proof.
  apply assign_cases in Hassign
    as [[=] | (mem & -> & Hsz & HP & HF & HT & [= -> ->])].
  pose proof (alloc_fresh σ (take (Z.to_nat p_size) mem)) as Hfresh.
  assert (Hne : (alloc σ (take (Z.to_nat p_size) mem)).2 <> h).
  { intros E. rewrite E in Hfresh. congruence. }
  split; [| split].
  - rewrite Hholds. cbn [release_opt]. apply (release_last _ _ d).
    refine (eq_trans (alloc_lookup_ne σ _ h _) Hsole). eauto.
  - cbn [m_data]. intros [= E]. exact (Hne E).
  - cbn [m_data]. eauto.
Qed.

Lemma reassign_frees_sole_owned_vector_witness :
  sample_store fcc_AMAT twin_file !! 2%positive = Some (Block 1 twin_file)
  /\ (sample_reassign fcc_AMAT (sample_store fcc_AMAT twin_file)
        (sample_packfile fcc_AMAT twin_file) overlap_file).1.1 !! 2%positive = None.
Proof.
  assert (Hsole : sample_store fcc_AMAT twin_file !! 2%positive
                  = Some (Block 1 twin_file)) by (vm_compute; reflexivity).
  split; [exact Hsole |].
  refine (proj1 (reassign_frees_sole_owned_vector fcc_AMAT
                   (sample_store fcc_AMAT twin_file)
                   (sample_packfile fcc_AMAT twin_file) 2%positive twin_file
                   (Some overlap_file) (Z.of_nat (length overlap_file)) _
                   (sample_reassign fcc_AMAT (sample_store fcc_AMAT twin_file)
                      (sample_packfile fcc_AMAT twin_file) overlap_file).1.2
                   _ Hsole _)).
  - vm_compute. reflexivity.
  - vm_compute. reflexivity.
Defined.

(** X11. The use counts stay right. When the use count of every vector in
    the store is the number of containers that hold it, and vectors nobody
    holds are not in the store, then the same is true after a container is
    constructed, copied, assigned to, reassigned or destroyed, with that
    container's share added or taken away. *)
Theorem use_counts_kept TFileType (σ : heap) (owners : gmultiset positive)
    (Hok : store_ok σ owners) :
  store_ok (PackFile_default σ).1 (owners ⊎ owner (PackFile_default σ).2)
  /\ (forall A σ' B,
        PackFile_copy σ A = Ok (σ', B) -> store_ok σ' (owners ⊎ owner B))
  /\ (forall this A σ' this',
        PackFile_copy_assign σ this A = Ok (σ', this') ->
        store_ok σ' ((owners ⊎ owner this') ∖ owner this))
  /\ (forall this p_data p_size σ' this' ok,
        assign TFileType σ this p_data p_size = Ok (σ', this', ok) ->
        store_ok σ' (if ok then (owners ⊎ owner this') ∖ owner this else owners))
  /\ (forall this, store_ok (PackFile_destroy σ this) (owners ∖ owner this)).
Proof.
  split; [apply default_store_ok; exact Hok |].
  split; [intros A σ' B Hc; eapply copy_store_ok; eassumption |].
  split; [intros this A σ' this' Hc; eapply copy_assign_store_ok; eassumption |].
  split; [intros this p_data p_size σ' this' ok Ha;
          eapply assign_store_ok; eassumption |].
  intros this. apply destroy_store_ok. exact Hok.
Qed.

Lemma use_counts_kept_witness :
  store_ok (PackFile_default ∅).1 (∅ ⊎ owner (PackFile_default ∅).2)
  /\ store_ok (PackFile_destroy ∅ (MkPackFile None None))
       (∅ ∖ owner (MkPackFile None None)).
Proof.
  destruct (use_counts_kept fcc_AMAT ∅ ∅ store_ok_empty) as (Hd & _ & _ & _ & Hx).
  split; [exact Hd | apply Hx].
Defined.

Lemma copy_assign_keeps_others TFileType (σ : heap) owners this other A σ' this' :
  store_ok σ owners ->
  owner this ⊎ owner other ⊆ owners ->
  packfile_inv TFileType σ other ->
  PackFile_copy_assign σ this A = Ok (σ', this') ->
  packfile_inv TFileType σ' other.
Proof.
  intros Hok Hown Hinv Hc. unfold PackFile_copy_assign in Hc.
  destruct (m_data A) as [h0 |] eqn:Hd0; [| discriminate].
  cbn [share deref] in Hc.
  destruct (release_opt (m_data this) (acquire h0 σ) !! h0) as [b1 |] eqn:Hb1;
    [| discriminate].
  cbn [mbind res_bind mret res_ret] in Hc. injection Hc as <- <-.
  apply (inv_same_bytes TFileType σ); [exact Hinv |].
  intros h b Hd Hb.
  destruct (σ !! h0) as [b0 |] eqn:Hb0.
  - assert (Hacq : exists b2, acquire h0 σ !! h = Some b2 /\ bytes b2 = bytes b).
    { destruct (decide (h0 = h)) as [-> | Hne].
      - rewrite (acquire_lookup _ _ _ Hb). eauto.
      - rewrite acquire_lookup_ne by exact Hne. eauto. }
    destruct Hacq as (b2 & Hb2 & E).
    destruct (release_keeps_others (acquire h0 σ) (owners ⊎ {[+ h0 +]})
                this other h b2) as (b' & Hb' & Hr' & E').
    + apply acquire_store_ok; [exact Hok | eauto].
    + intros x. specialize (Hown x).
      rewrite (multiplicity_disj_union owners). lia.
    + exact Hd.
    + exact Hb2.
    + exists b'. rewrite E', E. auto.
  - assert (Hsame : acquire h0 σ = σ).
    { unfold acquire. apply map_eq. intros i.
      destruct (decide (h0 = i)) as [-> | Hne].
      - rewrite lookup_alter_eq, Hb0. reflexivity.
      - rewrite lookup_alter_ne by exact Hne. reflexivity. }
    rewrite Hsame. eapply release_keeps_others; eassumption.
Qed.







(** ** Lookups that find nothing *)

Lemma find_none {A} (f : A -> bool) (l : list A) :
  Forall (fun y => f y = false) l -> List.find f l = None.
Proof.
  induction 1 as [| y l Hy Hl IH]; simpl; [reflexivity |].
  rewrite Hy. exact IH.
Qed.

(** X13. Where [size_t] and pointers are wider than 32 bits, a raw lookup
    in a loaded container returns the null pointer and
    size zero when no chunk header of the vector carries the requested
    identifier; this includes the vector that ends right after the file
    header. *)
Theorem raw_lookup_absent_when_no_match size_bits TFileType (σ : heap)
    (pf : PackFile) (h : positive) (d : list byte) (p_identifier : Z) (l : list Z)
    (Hwide : 32 < size_bits)
    (Hloaded : loaded TFileType σ pf h d)
    (Htable : chunk_table size_bits d sizeof_FileHeader l)
    (Hnone : Forall (fun q => magic_at d q <> p_identifier) l) :
  chunk size_bits σ pf p_identifier = Ok (None, 0).
Proof.
  rewrite (chunk_by_table size_bits _ _ _ _ _ _ _ Hloaded Htable).
  rewrite find_none; [reflexivity |].
  eapply Forall_weaken; [exact Hnone |]. simpl. intros q Hq.
  apply Z.eqb_neq. exact Hq.
Qed.

Lemma raw_lookup_absent_when_no_match_witness :
  (32 < 64 /\ Forall (fun q => magic_at twin_file q <> 0x58585858) [12; 34; 58])
  /\ chunk 64 (sample_store fcc_AMAT twin_file)
       (sample_packfile fcc_AMAT twin_file) 0x58585858 = Ok (None, 0).
Proof.
  assert (Hnone : Forall (fun q => magic_at twin_file q <> 0x58585858)
                    [12; 34; 58]).
  { repeat constructor; vm_compute; congruence. }
  split; [split; [lia | exact Hnone] |].
  exact (raw_lookup_absent_when_no_match 64 fcc_AMAT _ _ 2%positive twin_file
           0x58585858 [12; 34; 58] ltac:(lia) twin_file_loaded twin_file_table
           Hnone).
Defined.

(** ** Reading back what was written *)

Lemma u8_at_app_r (pre l : list byte) k :
  0 <= k -> u8_at (pre ++ l) (Z.of_nat (length pre) + k) = u8_at l k.
Proof.
  intros Hk. unfold u8_at.
  replace (Z.to_nat (Z.of_nat (length pre) + k))
    with (length pre + Z.to_nat k)%nat by lia.
  rewrite lookup_app_r by lia.
  replace (length pre + Z.to_nat k - length pre)%nat with (Z.to_nat k) by lia.
  reflexivity.
Qed.

Lemma u16_at_app_r (pre l : list byte) k :
  0 <= k -> u16_at (pre ++ l) (Z.of_nat (length pre) + k) = u16_at l k.
Proof.
  intros Hk. unfold u16_at.
  rewrite <- Z.add_assoc, !u8_at_app_r by lia. reflexivity.
Qed.

Lemma u32_at_app_r (pre l : list byte) k :
  0 <= k -> u32_at (pre ++ l) (Z.of_nat (length pre) + k) = u32_at l k.
Proof.
  intros Hk. unfold u32_at.
  rewrite <- Z.add_assoc, !u16_at_app_r by lia. reflexivity.
Qed.

Lemma encode_ChunkHeader_fields magic nco version hs doff rest :
  0 <= magic < 2 ^ 32 -> 0 <= nco < 2 ^ 32 -> 0 <= hs < 65536 ->
  u32_at (encode_ChunkHeader magic nco version hs doff ++ rest) 0 = magic
  /\ u32_at (encode_ChunkHeader magic nco version hs doff ++ rest) 4 = nco
  /\ u16_at (encode_ChunkHeader magic nco version hs doff ++ rest) 10 = hs.
Proof.
  intros Hm Hn Hh. unfold u32_at, u16_at, u8_at. simpl.
  split; [| split].
  - rewrite <- (u32_bytes magic Hm) at 5. lia.
  - rewrite <- (u32_bytes nco Hn) at 5. lia.
  - apply u16_bytes. exact Hh.
Qed.

Lemma length_encode_chunk magic version payload :
  length (encode_chunk magic version payload) = (16 + length payload)%nat.
Proof. reflexivity. Qed.

Section Written.

Variable size_bits : Z.
Hypothesis size_32 : 32 <= size_bits.
Variable p_identifier : Z.

(** One turn of the loop at a chunk that was written by [encode_chunk]. *)
Lemma scan_at_written pre c rest fuel po :
  writable c ->
  scan size_bits (S fuel) (pre ++ encode_chunk_data c ++ rest) p_identifier
    (Z.of_nat (length pre)) po =
    if cd_magic c =? p_identifier
    then Ok (Some (Z.of_nat (length pre) + 16), Z.of_nat (length (cd_payload c)))
    else scan size_bits fuel (pre ++ encode_chunk_data c ++ rest) p_identifier
           (Z.of_nat (length (pre ++ encode_chunk_data c))) po.
Proof.
  intros (Hm & Hlen). unfold sizeof_ChunkHeader in Hlen.
  set (d := pre ++ encode_chunk_data c ++ rest).
  assert (Hd : Z.of_nat (length d)
               = Z.of_nat (length pre) + 16 + Z.of_nat (length (cd_payload c))
                 + Z.of_nat (length rest)).
  { subst d. unfold encode_chunk_data.
    rewrite !length_app, length_encode_chunk. lia. }
  destruct (encode_ChunkHeader_fields (cd_magic c)
              (Z.of_nat (length (cd_payload c)) + 8) (cd_version c)
              sizeof_ChunkHeader 0 (cd_payload c ++ rest))
    as (Fm & Fn & Fh);
    [exact Hm | lia | unfold sizeof_ChunkHeader; lia |].
  assert (Hshape : encode_chunk_data c ++ rest
                   = encode_ChunkHeader (cd_magic c)
                       (Z.of_nat (length (cd_payload c)) + 8) (cd_version c)
                       sizeof_ChunkHeader 0 ++ cd_payload c ++ rest).
  { unfold encode_chunk_data, encode_chunk. rewrite <- app_assoc. reflexivity. }
  assert (Hmagic : magic_at d (Z.of_nat (length pre)) = cd_magic c).
  { unfold magic_at, off_ChunkHeader_magic. subst d.
    rewrite u32_at_app_r, Hshape by lia. exact Fm. }
  assert (Hnco : nextChunkOffset_at d (Z.of_nat (length pre))
                 = Z.of_nat (length (cd_payload c)) + 8).
  { unfold nextChunkOffset_at, offsetof_nextChunkOffset. subst d.
    rewrite u32_at_app_r, Hshape by lia. exact Fn. }
  assert (Hhs : headerSize_at d (Z.of_nat (length pre)) = 16).
  { unfold headerSize_at, off_ChunkHeader_headerSize. subst d.
    rewrite u16_at_app_r, Hshape by lia. exact Fh. }
  assert (Hspan : chunkSize_at size_bits d (Z.of_nat (length pre))
                  = Z.of_nat (length (cd_payload c)) + 16).
  { unfold chunkSize_at. rewrite Hnco.
    unfold offsetof_nextChunkOffset, sizeof_nextChunkOffset.
    rewrite (to_size_t_small32 size_bits
               (Z.of_nat (length (cd_payload c)) + 8 + 4)) by (assumption || lia).
    rewrite to_size_t_small32 by (assumption || lia). lia. }
  assert (Hps : payloadSize_at size_bits d (Z.of_nat (length pre))
                = Z.of_nat (length (cd_payload c))).
  { unfold payloadSize_at. rewrite Hspan, Hhs.
    replace (Z.of_nat (length (cd_payload c)) + 16 - 16)
      with (Z.of_nat (length (cd_payload c))) by lia.
    rewrite to_size_t_small32 by (assumption || lia).
    unfold to_uint32. apply Z.mod_small. lia. }
  rewrite scan_step by (unfold sizeof_ChunkHeader; lia).
  rewrite Hmagic, Hps, Hspan.
  unfold sizeof_ChunkHeader.
  replace (Z.of_nat (length (pre ++ encode_chunk_data c)))
    with (Z.of_nat (length pre) + (Z.of_nat (length (cd_payload c)) + 16)).
  - reflexivity.
  - unfold encode_chunk_data. rewrite length_app, length_encode_chunk. lia.
Qed.

(** The loop steps over written chunks of other identifiers, one turn
    each. *)
Lemma scan_skips_written po rest : forall cs pre fuel,
  Forall writable cs ->
  Forall (fun c => cd_magic c <> p_identifier) cs ->
  scan size_bits (length cs + fuel) (pre ++ encode_chunks cs ++ rest)
    p_identifier (Z.of_nat (length pre)) po =
  scan size_bits fuel (pre ++ encode_chunks cs ++ rest)
    p_identifier (Z.of_nat (length (pre ++ encode_chunks cs))) po.
Proof.
  induction cs as [| c cs IH]; intros pre fuel Hw Hne.
  - simpl. rewrite app_nil_r. reflexivity.
  - inversion Hw as [| ? ? Hwc Hwcs]; subst.
    inversion Hne as [| ? ? Hnc Hncs]; subst.
    assert (Hsplit : pre ++ encode_chunks (c :: cs) ++ rest
                     = pre ++ encode_chunk_data c ++ (encode_chunks cs ++ rest)).
    { change (encode_chunks (c :: cs))
        with (encode_chunk_data c ++ encode_chunks cs).
      rewrite <- (app_assoc (encode_chunk_data c)). reflexivity. }
    assert (Hsplit' : pre ++ encode_chunk_data c ++ (encode_chunks cs ++ rest)
                      = (pre ++ encode_chunk_data c) ++ encode_chunks cs ++ rest).
    { rewrite app_assoc. reflexivity. }
    assert (Hpos : pre ++ encode_chunks (c :: cs)
                   = (pre ++ encode_chunk_data c) ++ encode_chunks cs).
    { change (encode_chunks (c :: cs))
        with (encode_chunk_data c ++ encode_chunks cs).
      rewrite app_assoc. reflexivity. }
    cbn [length Nat.add]. rewrite Hsplit, scan_at_written by exact Hwc.
    apply Z.eqb_neq in Hnc. rewrite Hnc.
    rewrite Hsplit', IH by assumption. rewrite Hpos. reflexivity.
Qed.

End Written.

Lemma encode_chunks_app cs1 cs2 :
  encode_chunks (cs1 ++ cs2) = encode_chunks cs1 ++ encode_chunks cs2.
Proof. unfold encode_chunks. rewrite map_app, concat_app. reflexivity. Qed.

Lemma length_encode_chunks cs :
  (length cs <= length (encode_chunks cs))%nat.
Proof.
  induction cs as [| c cs IH]; [simpl; lia |].
  change (encode_chunks (c :: cs)) with (encode_chunk_data c ++ encode_chunks cs).
  unfold encode_chunk_data. rewrite length_app, length_encode_chunk.
  cbn [length]. lia.
Qed.

Lemma encode_file_chunks contentType cs :
  encode_file contentType (map encode_chunk_data cs)
  = encode_FileHeader 0 0 sizeof_FileHeader contentType ++ encode_chunks cs.
Proof. reflexivity. Qed.

Lemma length_encode_FileHeader dt z hs contentType :
  length (encode_FileHeader dt z hs contentType) = 12%nat.
Proof. reflexivity. Qed.

Lemma encode_FileHeader_valid TFileType dt z hs rest :
  0 <= TFileType < 2 ^ 32 ->
  valid_header TFileType (encode_FileHeader dt z hs TFileType ++ rest).
Proof.
  intros HT. unfold valid_header.
  split; [rewrite length_app, length_encode_FileHeader; unfold sizeof_FileHeader; lia |].
  split; [reflexivity |]. split; [reflexivity |].
  unfold u32_at, u16_at, u8_at, off_FileHeader_contentType. simpl.
  rewrite <- (u32_bytes TFileType HT) at 5. lia.
Qed.

Section WrittenFile.

Variable size_bits : Z.
Hypothesis size_32 : 32 <= size_bits.
Variable TFileType : Z.

(** The offset of the payload of the chunk that follows the chunks [cs1]
    in a written file. *)
Local Abbreviation payload_offset cs1 :=
  (sizeof_FileHeader + Z.of_nat (length (encode_chunks cs1)) + sizeof_ChunkHeader).

Lemma scan_finds_written cs1 c cs2 fuel :
  Forall writable (cs1 ++ c :: cs2) ->
  Forall (fun c' => cd_magic c' <> cd_magic c) cs1 ->
  (length cs1 < fuel)%nat ->
  scan size_bits fuel
    (encode_file TFileType (map encode_chunk_data (cs1 ++ c :: cs2)))
    (cd_magic c) sizeof_FileHeader 0
  = Ok (Some (payload_offset cs1), Z.of_nat (length (cd_payload c))).
Proof.
  intros Hw Hfirst Hfuel.
  apply Forall_app in Hw as [Hw1 Hw2].
  inversion Hw2 as [| ? ? Hwc Hwcs]; subst.
  rewrite encode_file_chunks, encode_chunks_app.
  set (hdr := encode_FileHeader 0 0 sizeof_FileHeader TFileType).
  change sizeof_FileHeader with (Z.of_nat (length hdr)) at 1.
  change (encode_chunks (c :: cs2))
    with (encode_chunk_data c ++ encode_chunks cs2).
  replace fuel with (length cs1 + S (fuel - S (length cs1)))%nat by lia.
  rewrite scan_skips_written by assumption.
  rewrite (app_assoc hdr).
  rewrite scan_at_written by assumption.
  rewrite Z.eqb_refl. rewrite length_app.
  unfold sizeof_ChunkHeader, sizeof_FileHeader. subst hdr.
  rewrite length_encode_FileHeader. do 3 f_equal. lia.
Qed.

Lemma scan_misses_written cs id fuel :
  Forall writable cs ->
  Forall (fun c' => cd_magic c' <> id) cs ->
  (length cs < fuel)%nat ->
  scan size_bits fuel (encode_file TFileType (map encode_chunk_data cs))
    id sizeof_FileHeader 0
  = Ok (None, 0).
Proof.
  intros Hw Hnone Hfuel.
  rewrite encode_file_chunks.
  set (hdr := encode_FileHeader 0 0 sizeof_FileHeader TFileType).
  change sizeof_FileHeader with (Z.of_nat (length hdr)) at 1.
  rewrite <- (app_nil_r (encode_chunks cs)).
  replace fuel with (length cs + S (fuel - S (length cs)))%nat by lia.
  rewrite scan_skips_written by assumption.
  apply scan_stop. rewrite !app_nil_r. unfold sizeof_ChunkHeader. lia.
Qed.

Lemma view_of_written_payload (σ : heap) h n cs1 c cs2 :
  σ !! h = Some (Block n
                   (encode_file TFileType (map encode_chunk_data (cs1 ++ c :: cs2)))) ->
  view_bytes σ (h, payload_offset cs1) (Z.of_nat (length (cd_payload c)))
  = Some (cd_payload c).
Proof.
  intros Hb. unfold view_bytes. cbn [fst snd]. rewrite Hb. cbn [bytes].
  rewrite encode_file_chunks, encode_chunks_app.
  change (encode_chunks (c :: cs2))
    with ((encode_ChunkHeader (cd_magic c)
             (Z.of_nat (length (cd_payload c)) + 8) (cd_version c)
             sizeof_ChunkHeader 0 ++ cd_payload c) ++ encode_chunks cs2).
  set (hdr := encode_FileHeader 0 0 sizeof_FileHeader TFileType).
  set (ch := encode_ChunkHeader (cd_magic c)
               (Z.of_nat (length (cd_payload c)) + 8) (cd_version c)
               sizeof_ChunkHeader 0).
  assert (Hshape : hdr ++ encode_chunks cs1 ++ (ch ++ cd_payload c) ++ encode_chunks cs2
                   = (hdr ++ encode_chunks cs1 ++ ch)
                       ++ cd_payload c ++ encode_chunks cs2).
  { rewrite <- !app_assoc. reflexivity. }
  assert (Hoff : Z.to_nat (payload_offset cs1)
                 = length (hdr ++ encode_chunks cs1 ++ ch)).
  { rewrite !length_app. subst hdr ch.
    rewrite length_encode_FileHeader.
    change (length (encode_ChunkHeader _ _ _ _ _)) with 16%nat.
    unfold sizeof_FileHeader, sizeof_ChunkHeader. lia. }
  rewrite Hshape.
  destruct (decide _) as [Hin | Hout].
  - rewrite Hoff, drop_app_length, Nat2Z.id, take_app_length. reflexivity.
  - exfalso. apply Hout. rewrite !length_app.
    unfold sizeof_FileHeader, sizeof_ChunkHeader in *. rewrite !length_app in Hoff.
    lia.
Qed.

End WrittenFile.

(** X14. Reading back what was written. Take a file of less than 2^32
    bytes made of a file header
    with the content type of the instantiation followed by chunks, each
    with a sixteen-byte header whose [nextChunkOffset] is the payload
    length plus eight. [assign] takes the file in; the raw lookup for the
    identifier of a chunk that no earlier chunk shares returns a view of
    exactly that chunk's payload (its length, and byte for byte its
    content); and the raw lookup for an identifier that no chunk carries
    returns the null pointer and size zero. *)
Theorem lookup_finds_written_payload size_bits TFileType (σ : heap)
    (this : PackFile) (cs1 : list chunk_data) (c : chunk_data)
    (cs2 : list chunk_data)
    (Hsize : 32 <= size_bits)
    (Htype : 0 <= TFileType < 2 ^ 32)
    (Hinv : packfile_inv TFileType σ this)
    (Hwritable : Forall writable (cs1 ++ c :: cs2))
    (Hfits : Z.of_nat (length (encode_file TFileType
                                 (map encode_chunk_data (cs1 ++ c :: cs2))))
             < 2 ^ 32)
    (Hfirst : Forall (fun c' => cd_magic c' <> cd_magic c) cs1) :
  let data := encode_file TFileType (map encode_chunk_data (cs1 ++ c :: cs2)) in
  let off := sizeof_FileHeader + Z.of_nat (length (encode_chunks cs1))
             + sizeof_ChunkHeader in
  exists σ' this' h,
    assign TFileType σ this (Some data) (Z.of_nat (length data))
      = Ok (σ', this', true)
    /\ chunk size_bits σ' this' (cd_magic c)
       = Ok (Some (h, off), Z.of_nat (length (cd_payload c)))
    /\ view_bytes σ' (h, off) (Z.of_nat (length (cd_payload c)))
       = Some (cd_payload c)
    /\ (forall id,
          Forall (fun c' => cd_magic c' <> id) (cs1 ++ c :: cs2) ->
          chunk size_bits σ' this' id = Ok (None, 0)).
Proof.
  intros data off.
  destruct (encode_FileHeader_valid TFileType 0 0 sizeof_FileHeader
              (encode_chunks (cs1 ++ c :: cs2)) Htype) as (Hlen & HP & HF & HT).
  rewrite <- encode_file_chunks in Hlen, HP, HF, HT. fold data in Hlen, HP, HF, HT.
  destruct (assign_valid_data_loads_aux TFileType σ this data
              (Z.of_nat (length data)) Hinv) as (σ' & this' & h & Ha & Hl);
    try assumption; [lia |].
  rewrite Nat2Z.id, take_ge in Hl by lia.
  exists σ', this', h. split; [exact Ha |].
  pose proof (length_encode_chunks (cs1 ++ c :: cs2)) as Hcount.
  rewrite length_app in Hcount. cbn [length] in Hcount.
  assert (Hdata : length data = (12 + length (encode_chunks (cs1 ++ c :: cs2)))%nat).
  { subst data. rewrite encode_file_chunks, length_app, length_encode_FileHeader.
    reflexivity. }
  split; [| split].
  - rewrite (chunk_loaded _ _ _ _ _ _ _ Hl), (chunk_fuel_loaded _ _ _ _ _ _ _ _ Hl).
    subst data. rewrite scan_finds_written; try assumption; [reflexivity | lia].
  - destruct Hl as (_ & _ & (n & Hb) & _).
    eapply view_of_written_payload. exact Hb.
  - intros id Hnone.
    rewrite (chunk_loaded _ _ _ _ _ _ _ Hl), (chunk_fuel_loaded _ _ _ _ _ _ _ _ Hl).
    subst data. rewrite scan_misses_written; try assumption; [reflexivity |].
    rewrite length_app. cbn [length]. lia.
Qed.

Lemma sample_chunks_writable : Forall writable sample_chunks.
Proof.
  repeat constructor; vm_compute; congruence.
Qed.

Lemma lookup_finds_written_payload_witness :
  exists σ' this' h,
    assign fcc_AMAT (PackFile_default ∅).1 (PackFile_default ∅).2
      (Some twin_file) (Z.of_nat (length twin_file)) = Ok (σ', this', true)
    /\ chunk 64 σ' this' fcc_GRMT = Ok (Some (h, 50), 8)
    /\ view_bytes σ' (h, 50) 8 = Some sample_payload.
Proof.
  destruct (lookup_finds_written_payload 64 fcc_AMAT (PackFile_default ∅).1
              (PackFile_default ∅).2
              [ChunkData fcc_DX9S 1 other_payload]
              (ChunkData fcc_GRMT 1 sample_payload)
              [ChunkData fcc_GRMT 2 other_payload])
    as (σ' & this' & h & Ha & Hc & Hv & _).
  - lia.
  - vm_compute. split; congruence.
  - apply default_inv.
  - exact sample_chunks_writable.
  - vm_compute. reflexivity.
  - repeat constructor. vm_compute. congruence.
  - exists σ', this', h. split; [exact Ha |]. split; [exact Hc | exact Hv].
Defined.

(** X15. The typed lookup on such a file: [chunk<TId>()] for the
    identifier of a written chunk that no earlier chunk shares invokes the
    [ChunkFactory] constructor once, with a pointer and a size that denote
    exactly that chunk's payload, and returns the record it built. *)
Theorem typed_lookup_gets_written_payload size_bits TFileType
    (ChunkFactory_Type : Z -> Z -> Type)
    (construct : forall fileType id : Z,
        gmap positive block -> option ptr -> Z -> ChunkFactory_Type fileType id)
    (σ : heap) (pf : PackFile) (h : positive)
    (cs1 : list chunk_data) (c : chunk_data) (cs2 : list chunk_data)
    (Hsize : 32 <= size_bits)
    (Hloaded : loaded TFileType σ pf h
                 (encode_file TFileType (map encode_chunk_data (cs1 ++ c :: cs2))))
    (Hwritable : Forall writable (cs1 ++ c :: cs2))
    (Hfirst : Forall (fun c' => cd_magic c' <> cd_magic c) cs1) :
  exists data size,
    chunk_typed size_bits TFileType ChunkFactory_Type construct σ pf (cd_magic c)
      = Ok (Some (construct TFileType (cd_magic c) σ (Some data) size),
            [Call TFileType (cd_magic c) (Some data) size])
    /\ view_bytes σ data size = Some (cd_payload c).
Proof.
  exists (h, sizeof_FileHeader + Z.of_nat (length (encode_chunks cs1))
             + sizeof_ChunkHeader),
    (Z.of_nat (length (cd_payload c))).
  pose proof (length_encode_chunks (cs1 ++ c :: cs2)) as Hcount.
  rewrite length_app in Hcount. cbn [length] in Hcount.
  split.
  - unfold chunk_typed.
    rewrite (chunk_loaded _ _ _ _ _ _ _ Hloaded),
      (chunk_fuel_loaded _ _ _ _ _ _ _ _ Hloaded).
    rewrite scan_finds_written; try assumption; [reflexivity |].
    rewrite encode_file_chunks, length_app, length_encode_FileHeader. lia.
  - destruct Hloaded as (_ & _ & (n & Hb) & _).
    eapply view_of_written_payload. exact Hb.
Qed.

Lemma typed_lookup_gets_written_payload_witness :
  exists data size,
    chunk_typed 64 fcc_AMAT (fun _ _ => (option ptr * Z)%type)
      (fun _ _ _ data size => (data, size))
      (sample_store fcc_AMAT twin_file) (sample_packfile fcc_AMAT twin_file)
      fcc_GRMT
    = Ok (Some (Some data, size), [Call fcc_AMAT fcc_GRMT (Some data) size])
    /\ view_bytes (sample_store fcc_AMAT twin_file) data size = Some sample_payload.
Proof.
  apply (typed_lookup_gets_written_payload 64 fcc_AMAT
           (fun _ _ => (option ptr * Z)%type)
           (fun _ _ _ data size => (data, size))
           (sample_store fcc_AMAT twin_file) (sample_packfile fcc_AMAT twin_file)
           2%positive
           [ChunkData fcc_DX9S 1 other_payload]
           (ChunkData fcc_GRMT 1 sample_payload)
           [ChunkData fcc_GRMT 2 other_payload]).
  - lia.
  - exact twin_file_loaded.
  - exact sample_chunks_writable.
  - repeat constructor. vm_compute. congruence.
Defined.

(** ** A span of zero *)

(** X16. A chunk header whose computed span [chunkSize] is zero and whose
    magic is not the requested identifier stops the scan from moving on:
    the loop looks at the same header again in every turn and never ends.
    The span is zero when [nextChunkOffset + 8] wraps around to zero in
    [size_t], that is for [nextChunkOffset = 2^32 - 8] with a 32-bit
    [size_t]. *)
Theorem zero_span_never_ends size_bits (d : list byte) (p_identifier : Z)
    (p : Z) (po_size : Z) (fuel : nat)
    (Hp : 0 <= p)
    (Hfit : p + sizeof_ChunkHeader <= Z.of_nat (length d))
    (Hzero : chunkSize_at size_bits d p = 0)
    (Hmagic : magic_at d p <> p_identifier) :
  scan size_bits fuel d p_identifier p po_size = Fault OutOfFuel.
Proof.
  induction fuel as [| fuel IH]; [reflexivity |].
  rewrite scan_step by assumption.
  apply Z.eqb_neq in Hmagic. rewrite Hmagic, Hzero, Z.add_0_r. exact IH.
Qed.

Lemma zero_span_never_ends_witness :
  nextChunkOffset_at zero_span_file 12 = 2 ^ 32 - 8
  /\ chunkSize_at 32 zero_span_file 12 = 0
  /\ scan 32 1000 zero_span_file fcc_GRMT 12 0 = Fault OutOfFuel
  /\ chunk_fuel 32 1000 (sample_store fcc_AMAT zero_span_file)
       (sample_packfile fcc_AMAT zero_span_file) fcc_GRMT = Fault OutOfFuel.
Proof.
  assert (Hs : scan 32 1000 zero_span_file fcc_GRMT 12 0 = Fault OutOfFuel).
  { apply (zero_span_never_ends 32 zero_span_file fcc_GRMT 12 0 1000).
    - lia.
    - vm_compute. congruence.
    - vm_compute. reflexivity.
    - vm_compute. congruence. }
  split; [vm_compute; reflexivity |].
  split; [vm_compute; reflexivity |].
  split; [exact Hs |].
  change (chunk_fuel 32 1000 (sample_store fcc_AMAT zero_span_file)
            (sample_packfile fcc_AMAT zero_span_file) fcc_GRMT)
    with (match scan 32 1000 zero_span_file fcc_GRMT 12 0 with
          | Ok (Some off, size) => Ok (Some (2%positive, off), size)
          | Ok (None, size) => Ok (None, size)
          | Fault f => Fault f
          end).
  rewrite Hs. reflexivity.
Defined.

(** ** The fields of the file header that nobody reads *)

Lemma read_u8_same_tail (pre pre' rest : list byte) off :
  length pre = length pre' ->
  Z.of_nat (length pre) <= off ->
  read_u8 (pre ++ rest) off = read_u8 (pre' ++ rest) off.
Proof.
  intros Hlen Hoff. unfold read_u8.
  destruct (decide (0 <= off)); [| reflexivity].
  rewrite !lookup_app_r by lia. rewrite Hlen. reflexivity.
Qed.

Lemma read_u16_same_tail (pre pre' rest : list byte) off :
  length pre = length pre' ->
  Z.of_nat (length pre) <= off ->
  read_u16 (pre ++ rest) off = read_u16 (pre' ++ rest) off.
Proof.
  intros Hlen Hoff. unfold read_u16.
  rewrite (read_u8_same_tail pre pre' rest off),
    (read_u8_same_tail pre pre' rest (off + 1)) by (assumption || lia).
  reflexivity.
Qed.

Lemma read_u32_same_tail (pre pre' rest : list byte) off :
  length pre = length pre' ->
  Z.of_nat (length pre) <= off ->
  read_u32 (pre ++ rest) off = read_u32 (pre' ++ rest) off.
Proof.
  intros Hlen Hoff. unfold read_u32.
  rewrite (read_u16_same_tail pre pre' rest off),
    (read_u16_same_tail pre pre' rest (off + 2)) by (assumption || lia).
  reflexivity.
Qed.

(** The loop only reads from its start position on. *)
Lemma scan_same_tail size_bits (pre pre' rest : list byte) id po :
  length pre = length pre' ->
  forall fuel p,
    Z.of_nat (length pre) <= p ->
    scan size_bits fuel (pre ++ rest) id p po
    = scan size_bits fuel (pre' ++ rest) id p po.
Proof.
  intros Hlen. induction fuel as [| fuel IH]; intros p Hp; [reflexivity |].
  cbn [scan]. rewrite !length_app, Hlen.
  destruct (p <? Z.of_nat (length pre' + length rest)); [| reflexivity].
  destruct (Z.of_nat (length pre' + length rest) - p <? sizeof_ChunkHeader);
    [reflexivity |].
  unfold offsetof_nextChunkOffset, off_ChunkHeader_magic,
    off_ChunkHeader_headerSize.
  rewrite (read_u32_same_tail pre pre' rest (p + 4)),
    (read_u32_same_tail pre pre' rest (p + 0)),
    (read_u16_same_tail pre pre' rest (p + 10)) by (assumption || lia).
  destruct (read_u32 (pre' ++ rest) (p + 4)) as [nco |] eqn:Hr; [| reflexivity].
  cbn [mbind res_bind].
  destruct (read_u32 (pre' ++ rest) (p + 0)) as [m |]; [| reflexivity].
  cbn [mbind res_bind].
  destruct (m =? id); [reflexivity |].
  apply IH.
  apply read_u32_value in Hr.
  pose proof (u32_at_range (pre' ++ rest) (p + 4)) as Hn. rewrite <- Hr in Hn.
  pose proof (to_size_t_nonneg size_bits (nco + 4) ltac:(lia)) as Hc'.
  pose proof (to_size_t_nonneg size_bits
                (to_size_t size_bits (nco + 4) + sizeof_nextChunkOffset)) as Hc.
  unfold sizeof_nextChunkOffset in *. lia.
Qed.

(** X17. Where [size_t] and pointers are wider than 32 bits, the fields
    [descriptorType], [zero] and [headerSize] of the file header have no
    influence on anything. Whatever they hold, [assign] takes in a file
    with the right magic and content type; and two containers that were
    assigned files which differ only in these three fields return the same
    offset and the same size for every raw lookup. In particular the scan
    starts twelve bytes into the vector whatever [headerSize] says. *)
Theorem file_header_fields_ignored size_bits TFileType
    (dt z hs dt' z' hs' : Z) (rest : list byte)
    (σ1 : heap) (this1 : PackFile) (σ2 : heap) (this2 : PackFile)
    (Hwide : 32 < size_bits)
    (Htype : 0 <= TFileType < 2 ^ 32)
    (Hinv1 : packfile_inv TFileType σ1 this1)
    (Hinv2 : packfile_inv TFileType σ2 this2) :
  let file1 := encode_FileHeader dt z hs TFileType ++ rest in
  let file2 := encode_FileHeader dt' z' hs' TFileType ++ rest in
  exists σ1' pf1 σ2' pf2,
    assign TFileType σ1 this1 (Some file1) (Z.of_nat (length file1))
      = Ok (σ1', pf1, true)
    /\ assign TFileType σ2 this2 (Some file2) (Z.of_nat (length file2))
       = Ok (σ2', pf2, true)
    /\ (forall p_identifier,
          offset_and_size (chunk size_bits σ1' pf1 p_identifier)
          = offset_and_size (chunk size_bits σ2' pf2 p_identifier)).
Proof.
  intros file1 file2.
  assert (Hload : forall dt0 z0 hs0 σ this,
             packfile_inv TFileType σ this ->
             let file := encode_FileHeader dt0 z0 hs0 TFileType ++ rest in
             exists σ' pf h,
               assign TFileType σ this (Some file) (Z.of_nat (length file))
                 = Ok (σ', pf, true)
               /\ loaded TFileType σ' pf h file).
  { intros dt0 z0 hs0 σ this Hinv file.
    destruct (encode_FileHeader_valid TFileType dt0 z0 hs0 rest Htype)
      as (Hlen & HP & HF & HT). fold file in Hlen, HP, HF, HT.
    destruct (assign_valid_data_loads_aux TFileType σ this file
                (Z.of_nat (length file)) Hinv) as (σ' & pf & h & Ha & Hl);
      try assumption; [lia |].
    rewrite Nat2Z.id, take_ge in Hl by lia. eauto. }
  destruct (Hload dt z hs σ1 this1 Hinv1) as (σ1' & pf1 & h1 & Ha1 & Hl1).
  destruct (Hload dt' z' hs' σ2 this2 Hinv2) as (σ2' & pf2 & h2 & Ha2 & Hl2).
  exists σ1', pf1, σ2', pf2.
  split; [exact Ha1 |]. split; [exact Ha2 |].
  intros p_identifier.
  rewrite (chunk_loaded _ _ _ _ _ _ _ Hl1), (chunk_fuel_loaded _ _ _ _ _ _ _ _ Hl1).
  rewrite (chunk_loaded _ _ _ _ _ _ _ Hl2), (chunk_fuel_loaded _ _ _ _ _ _ _ _ Hl2).
  rewrite !length_app, !length_encode_FileHeader.
  rewrite (scan_same_tail size_bits (encode_FileHeader dt z hs TFileType)
             (encode_FileHeader dt' z' hs' TFileType) rest p_identifier 0)
    by (rewrite ?length_encode_FileHeader; unfold sizeof_FileHeader; lia || reflexivity).
  destruct (scan size_bits _ _ p_identifier sizeof_FileHeader 0)
    as [[[off |] size] | f]; reflexivity.
Qed.

Lemma file_header_fields_ignored_witness :
  32 < 64
  /\ exists σ1' pf1 σ2' pf2,
       assign fcc_AMAT (PackFile_default ∅).1 (PackFile_default ∅).2
         (Some odd_header_file) (Z.of_nat (length odd_header_file))
         = Ok (σ1', pf1, true)
       /\ assign fcc_AMAT (PackFile_default ∅).1 (PackFile_default ∅).2
            (Some twin_file) (Z.of_nat (length twin_file))
          = Ok (σ2', pf2, true)
       /\ (forall p_identifier,
             offset_and_size (chunk 64 σ1' pf1 p_identifier)
             = offset_and_size (chunk 64 σ2' pf2 p_identifier)).
Proof.
  split; [lia |].
  apply (file_header_fields_ignored 64 fcc_AMAT 0xBEEF 7 200 0 0 sizeof_FileHeader
           (encode_chunks sample_chunks)
           (PackFile_default ∅).1 (PackFile_default ∅).2
           (PackFile_default ∅).1 (PackFile_default ∅).2).
  - lia.
  - vm_compute. split; congruence.
  - apply default_inv.
  - apply default_inv.
Defined.

(** ** The loading constructors on valid data *)

(** X18. The constructor from a (pointer, size) pair and the constructor
    from a file name give a loaded container when the data is valid: the
    one holds the first [p_size] bytes of the caller's data, the other the
    whole content of a file of less than 2^32 bytes, each in a vector of
    its own with a header view at its first byte. *)
Theorem constructors_load_valid_data TFileType fs (σ : heap)
    (mem : list byte) (p_size : Z) (p_filename : string) (content : list byte)
    (Hsize : sizeof_FileHeader <= p_size <= Z.of_nat (length mem))
    (Hmem : valid_header TFileType mem)
    (Hfile : fs p_filename = Some content)
    (Hsmall : Z.of_nat (length content) < 2 ^ 32)
    (Hcontent : valid_header TFileType content) :
  (exists σ' pf h,
      PackFile_from_data TFileType σ (Some mem) p_size = Ok (σ', pf)
      /\ loaded TFileType σ' pf h (take (Z.to_nat p_size) mem)
      /\ σ' !! h = Some (Block 1 (take (Z.to_nat p_size) mem)))
  /\ (exists σ' pf h,
        PackFile_from_file TFileType fs σ p_filename = Ok (σ', pf)
        /\ loaded TFileType σ' pf h content
        /\ σ' !! h = Some (Block 1 content)).
Proof.
  assert (Hnew : forall d, exists σ' pf h,
             (let '(σ1, h0) := alloc σ d in
              Ok (release_opt (m_data (MkPackFile None None)) σ1,
                  MkPackFile (Some h0) (Some (h0, 0)), true))
             = Ok (σ', pf, true)
             /\ pf = MkPackFile (Some h) (Some (h, 0))
             /\ σ' !! h = Some (Block 1 d)).
  { intros d. pose proof (alloc_lookup σ d) as Hl.
    destruct (alloc σ d) as [σ1 h0]. simpl in *. eauto 10. }
  split.
  - destruct Hmem as (_ & HP & HF & HT).
    pose proof (assign_accepts TFileType σ (MkPackFile None None) mem p_size
                  Hsize HP HF HT) as Ha.
    destruct (Hnew (take (Z.to_nat p_size) mem)) as (σ' & pf & h & E & -> & Hb).
    rewrite E in Ha. unfold PackFile_from_data. rewrite Ha.
    exists σ', (MkPackFile (Some h) (Some (h, 0))), h.
    split; [reflexivity |]. split; [| exact Hb].
    unfold loaded. simpl. repeat split; eauto.
    + unfold sizeof_FileHeader in *. rewrite length_take. lia.
    + unfold sizeof_FileHeader in *. rewrite lookup_take_lt by lia. exact HP.
    + unfold sizeof_FileHeader in *. rewrite lookup_take_lt by lia. exact HF.
    + unfold off_FileHeader_contentType, sizeof_FileHeader in *.
      rewrite u32_at_take by lia. exact HT.
  - assert (Hc := Hcontent). destruct Hc as (Hlen & HP & HF & HT).
    assert (Hsz : to_uint32 (Z.of_nat (length content)) = Z.of_nat (length content)).
    { unfold to_uint32. apply Z.mod_small. lia. }
    assert (Htake : take (Z.to_nat (Z.of_nat (length content))) content = content).
    { apply take_ge. lia. }
    pose proof (assign_accepts TFileType σ (MkPackFile None None) content
                  (Z.of_nat (length content)) ltac:(lia) HP HF HT) as Ha.
    rewrite Htake in Ha.
    destruct (Hnew content) as (σ' & pf & h & E & -> & Hb).
    rewrite E in Ha. unfold PackFile_from_file, load.
    rewrite Hfile, Hsz, Htake, Hsz, Ha.
    exists σ', (MkPackFile (Some h) (Some (h, 0))), h.
    split; [reflexivity |]. split; [| exact Hb].
    unfold loaded. simpl. repeat split; eauto; apply Hcontent.
Qed.

Lemma constructors_load_valid_data_witness :
  (exists σ' pf h,
      PackFile_from_data fcc_AMAT ∅ (Some twin_file) 34 = Ok (σ', pf)
      /\ loaded fcc_AMAT σ' pf h (take 34 twin_file)
      /\ σ' !! h = Some (Block 1 (take 34 twin_file)))
  /\ (exists σ' pf h,
        PackFile_from_file fcc_AMAT (sample_fs "twin.amat" twin_file) ∅ "twin.amat"
          = Ok (σ', pf)
        /\ loaded fcc_AMAT σ' pf h twin_file
        /\ σ' !! h = Some (Block 1 twin_file)).
Proof.
  assert (Hv : valid_header fcc_AMAT twin_file).
  { unfold valid_header. repeat split; vm_compute; congruence. }
  apply (constructors_load_valid_data fcc_AMAT (sample_fs "twin.amat" twin_file)
           ∅ twin_file 34 "twin.amat" twin_file).
  - vm_compute. split; congruence.
  - exact Hv.
  - reflexivity.
  - vm_compute. reflexivity.
  - exact Hv.
Defined.
